(** * ZIndexManager: ordering store for canvas blocks

    A shallow embedding of the classes [ZIndexManager] and [ZIndexNode]
    and the properties of the manager's public operations.

    Nodes are objects linked by references, so the embedding keeps an
    object store (a finite map from references to nodes) and the manager
    fields [head] and [blockMap] hold references into it.  Operations are
    written in a small state-and-exception monad: an exception leaves the
    mutations made before it in place, as in the source. *)

From Stdlib Require Import ZArith Sorted.
From stdpp Require Import gmap strings list fin_maps sorting.

Local Open Scope Z_scope.

(** ** Data model *)

(** A reference to a [ZIndexNode] object. *)
Abbreviation ref := positive (only parsing).

(** class ZIndexNode: [renderOrder] is initialised to 9000, [next] and
    [prev] to null. *)
Record ZIndexNode : Type := mkNode {
  blockId : string;
  fixedZIndex : Z;
  renderOrder : Z;
  next : option ref;
  prev : option ref
}.

(** What [new ZIndexNode(blockId, fixedZIndex)] builds. *)
Definition newNode (id : string) (z : Z) : ZIndexNode :=
  mkNode id z 9000 None None.

Global Instance ZIndexNode_inhabited : Inhabited ZIndexNode :=
  populate (newNode "" 0).

Definition set_next (v : option ref) (n : ZIndexNode) : ZIndexNode :=
  mkNode (blockId n) (fixedZIndex n) (renderOrder n) v (prev n).

Definition set_prev (v : option ref) (n : ZIndexNode) : ZIndexNode :=
  mkNode (blockId n) (fixedZIndex n) (renderOrder n) (next n) v.

(** class ZIndexManager.  [objs] is the object store the references of
    [head], [blockMap], [next] and [prev] point into.  The private field
    [baseRenderOrder] is initialised to 9000 and assigned nowhere in the
    class, so it is the constant below. *)
Record ZIndexManager : Type := mkManager {
  objs : gmap positive ZIndexNode;
  head : option ref;
  blockMap : gmap string positive
}.

Definition baseRenderOrder : Z := 9000.

(** The manager built by the private constructor, which [getInstance]
    returns on its first call. *)
Definition newManager : ZIndexManager := mkManager ∅ None ∅.

(** ** State and exception monad *)

Inductive outcome (A : Type) : Type :=
  | Ok (a : A)
  | Throw (msg : string)
  | Diverge.
Arguments Ok {A} a.
Arguments Throw {A} msg.
Arguments Diverge {A}.

Definition M (A : Type) : Type := ZIndexManager → ZIndexManager * outcome A.

Definition ret {A} (a : A) : M A := λ s, (s, Ok a).

Definition bind {A B} (m : M A) (k : A → M B) : M B := λ s,
  match m s with
  | (s', Ok a) => k a s'
  | (s', Throw msg) => (s', Throw msg)
  | (s', Diverge) => (s', Diverge)
  end.

Definition throw {A} (msg : string) : M A := λ s, (s, Throw msg).

Declare Scope zim_scope.
Delimit Scope zim_scope with zim.
Notation "x ← m ; k" := (bind m (λ x, k))
  (at level 20, m at level 100, k at level 200, only parsing) : zim_scope.
Notation "m ;; k" := (bind m (λ _, k))
  (at level 100, k at level 200, right associativity, only parsing) : zim_scope.

(** Final state and result of a run. *)
Definition exec {A} (m : M A) (s : ZIndexManager) : ZIndexManager := (m s).1.
Definition eval {A} (m : M A) (s : ZIndexManager) : outcome A := (m s).2.

Definition outcome_map {A B} (f : A → B) (o : outcome A) : outcome B :=
  match o with
  | Ok a => Ok (f a)
  | Throw msg => Throw msg
  | Diverge => Diverge
  end.

(** Field accesses.  A JavaScript reference always points to an object;
    the references of a state that satisfies the invariants below are all
    in [objs], and elsewhere a read through a reference that is not in
    [objs] sees a node with null links and a write does nothing. *)
Definition get_head : M (option ref) := λ s, (s, Ok (head s)).
Definition set_head (v : option ref) : M unit := λ s,
  (mkManager (objs s) v (blockMap s), Ok tt).

Definition read {A} (f : ZIndexNode → A) (node : ref) : M A := λ s,
  (s, Ok (f (objs s !!! node))).
Definition write (f : ZIndexNode → ZIndexNode) (node : ref) : M unit := λ s,
  (mkManager (alter f node (objs s)) (head s) (blockMap s), Ok tt).

Definition blockMap_get (id : string) : M (option ref) := λ s,
  (s, Ok (blockMap s !! id)).
Definition blockMap_delete (id : string) : M unit := λ s,
  (mkManager (objs s) (head s) (delete id (blockMap s)), Ok tt).
Definition blockMap_clear : M unit := λ s,
  (mkManager (objs s) (head s) ∅, Ok tt).
Definition blockMap_size : M nat := λ s, (s, Ok (size (blockMap s))).

(** ** generateFixedZIndex *)

(** ToInt32: the signed 32-bit value of an integer. *)
Definition to_int32 (z : Z) : Z := (z + 2 ^ 31) mod 2 ^ 32 - 2 ^ 31.

(** [a << k] and [a & b] on JavaScript numbers holding integers. *)
Definition js_shl (a k : Z) : Z := to_int32 (Z.shiftl (to_int32 a) (Z.land k 31)).
Definition js_and (a b : Z) : Z := Z.land (to_int32 a) (to_int32 b).

(** [charCodeAt]: block ids are strings of code units below 256. *)
Definition charCode (c : Ascii.ascii) : Z := Z.of_N (Ascii.N_of_ascii c).

(** The [for] loop of generateFixedZIndex, from index i on. *)
Fixpoint hash_loop (rest : string) (hash : Z) : Z :=
  match rest with
  | EmptyString => hash
  | String c rest' =>
      hash_loop rest' (js_and (js_shl hash 5 - hash + charCode c) 0xffffffff)
  end.

Definition generateFixedZIndex (id : string) : Z :=
  let hash := hash_loop id 0 in
  Z.rem (Z.abs hash) 8000 + 1000.

(** ** Operations *)

Section Operations.
Local Open Scope zim_scope.

(** moveToFront: the body is [return 0]. *)
Definition moveToFront (id : string) : M Z := ret 0.

(** updateRenderOrders: the body is [throw new Error('Not implemented')]. *)
Definition updateRenderOrders : M unit := throw "Not implemented".

(** The [while (current)] loop of getBlocksNeedingUpdate. *)
Fixpoint getBlocksNeedingUpdate_loop (fuel : nat) (h : gmap positive ZIndexNode)
    (current : option ref) : option (list (string * Z)) :=
  match current with
  | None => Some []
  | Some c =>
      match fuel with
      | O => None
      | S fuel' =>
          let node := h !!! c in
          rest ← getBlocksNeedingUpdate_loop fuel' h (next node);
          Some ((blockId node, renderOrder node) :: rest)
      end
  end%stdpp.

(** The [while (current)] loop of getAllBlocks. *)
Fixpoint getAllBlocks_loop (fuel : nat) (h : gmap positive ZIndexNode)
    (current : option ref) : option (list string) :=
  match current with
  | None => Some []
  | Some c =>
      match fuel with
      | O => None
      | S fuel' =>
          let node := h !!! c in
          rest ← getAllBlocks_loop fuel' h (next node);
          Some (blockId node :: rest)
      end
  end%stdpp.

(** A walk that ends visits every stored node at most once, so
    [S (size (objs s))] iterations are enough for it (see [fuel_enough]
    and [fuel_enough_entries]); a walk that needs more runs forever. *)
Definition loop_fuel (s : ZIndexManager) : nat := S (size (objs s)).

Definition of_loop {A} (r : option A) : outcome A :=
  match r with Some a => Ok a | None => Diverge end.

Definition getBlocksNeedingUpdate : M (list (string * Z)) := λ s,
  (s, of_loop (getBlocksNeedingUpdate_loop (loop_fuel s) (objs s) (head s))).

Definition getAllBlocks : M (list string) := λ s,
  (s, of_loop (getAllBlocks_loop (loop_fuel s) (objs s) (head s))).

Definition getZIndex (id : string) : M Z :=
  node ← blockMap_get id;
  match node with
  | None => ret (generateFixedZIndex id)
  | Some node => read fixedZIndex node
  end.

Definition getRenderOrder (id : string) : M Z :=
  node ← blockMap_get id;
  match node with
  | Some node => read renderOrder node
  | None => ret baseRenderOrder
  end.

Definition removeBlock (id : string) : M unit :=
  node ← blockMap_get id;
  match node with
  | None => ret tt
  | Some node =>
      hd ← get_head;
      (if decide (hd = Some node)
       then nx ← read next node; set_head nx
       else ret tt);;
      p ← read prev node;
      (match p with
       | Some p => nx ← read next node; write (set_next nx) p
       | None => ret tt
       end);;
      nx ← read next node;
      (match nx with
       | Some nx => p ← read prev node; write (set_prev p) nx
       | None => ret tt
       end);;
      blockMap_delete id;;
      updateRenderOrders
  end.

Definition getBlockCount : M nat := blockMap_size.

Definition reset : M unit :=
  set_head None;;
  blockMap_clear.

End Operations.

(** ** Invariants of the data model *)

(** [seg h p c ls e]: following [next] from the reference [c] visits
    exactly the nodes [ls] and then reaches [e]; the [prev] of every
    visited node is the node visited before it, [p] for the first. *)
Fixpoint seg (h : gmap positive ZIndexNode) (p c : option ref)
    (ls : list positive) (e : option ref) : Prop :=
  match ls with
  | [] => c = e
  | l :: ls' =>
      c = Some l ∧
      ∃ n, h !! l = Some n ∧ prev n = p ∧ seg h (Some l) (next n) ls' e
  end.

(** The node visited last, or [p] when none was. *)
Definition last_or (p : option ref) (ls : list positive) : option ref :=
  from_option Some p (last ls).

(** The ids of the nodes [ls], in order. *)
Definition ids_of (h : gmap positive ZIndexNode) (ls : list positive)
    : list string :=
  (λ l, blockId (h !!! l)) <$> ls.

(** [linked s ls]: the manager tracks exactly the nodes [ls], front first.
    The list from [head] is a doubly linked chain without cycle that ends
    in null, and [blockMap] maps an id to a node iff that node is in the
    list and carries the id. *)
Record linked (s : ZIndexManager) (ls : list positive) : Prop := mkLinked {
  linked_chain : seg (objs s) None (head s) ls None;
  linked_nodup : NoDup ls;
  linked_index : ∀ id l,
    blockMap s !! id = Some l ↔ l ∈ ls ∧ blockId (objs s !!! l) = id
}.

Definition wf (s : ZIndexManager) : Prop := ∃ ls, linked s ls.

(** Every tracked node carries the key of its id: nodes are built as
    [new ZIndexNode(blockId, generateFixedZIndex(blockId))] and
    [fixedZIndex] is assigned nowhere else. *)
Definition keys_stable (s : ZIndexManager) : Prop :=
  ∀ id l, blockMap s !! id = Some l →
    fixedZIndex (objs s !!! l) = generateFixedZIndex id.

(** The state [removeBlock] has built when it reaches the call of
    updateRenderOrders, for the tracked node [node]. *)
Definition unlinked (id : string) (node : ref) (s : ZIndexManager)
    : ZIndexManager :=
  let hd := if decide (head s = Some node)
            then next (objs s !!! node) else head s in
  let h1 := match prev (objs s !!! node) with
            | Some p => alter (set_next (next (objs s !!! node))) p (objs s)
            | None => objs s
            end in
  let h2 := match next (h1 !!! node) with
            | Some nx => alter (set_prev (prev (h1 !!! node))) nx h1
            | None => h1
            end in
  mkManager h2 hd (delete id (blockMap s)).

(** [path h c ls]: the loop [while (current) current = current.next]
    started at [c] visits exactly the nodes [ls] and then stops. *)
Fixpoint path (h : gmap positive ZIndexNode) (c : option ref)
    (ls : list positive) : Prop :=
  match ls with
  | [] => c = None
  | l :: ls' => c = Some l ∧ path h (next (h !!! l)) ls'
  end.

(** The entries getBlocksNeedingUpdate builds for the nodes [ls]. *)
Definition entries_of (h : gmap positive ZIndexNode) (ls : list positive)
    : list (string * Z) :=
  (λ l, (blockId (h !!! l), renderOrder (h !!! l))) <$> ls.

(** ** Reachable states *)

(** One call of a public method; a caller may catch the error of a call
    and go on, so the state a call leaves counts whatever its outcome. *)
Inductive step : ZIndexManager → ZIndexManager → Prop :=
  | step_moveToFront id s : step s (exec (moveToFront id) s)
  | step_getBlocksNeedingUpdate s : step s (exec getBlocksNeedingUpdate s)
  | step_getZIndex id s : step s (exec (getZIndex id) s)
  | step_getRenderOrder id s : step s (exec (getRenderOrder id) s)
  | step_removeBlock id s : step s (exec (removeBlock id) s)
  | step_getBlockCount s : step s (exec getBlockCount s)
  | step_getAllBlocks s : step s (exec getAllBlocks s)
  | step_reset s : step s (exec reset s).

Definition reachable (s : ZIndexManager) : Prop := rtc step newManager s.

(** [rs] are the render orders [getRenderOrder] reports for [ids]. *)
Definition ranks_of (s : ZIndexManager) (ids : list string) (rs : list Z)
    : Prop :=
  Forall2 (λ id r, eval (getRenderOrder id) s = Ok r) ids rs.

Definition strictly_decreasing (rs : list Z) : Prop :=
  StronglySorted (λ a b, b < a) rs.

(** The render orders of the nodes [ls], in order. *)
Definition ranks (h : gmap positive ZIndexNode) (ls : list positive) : list Z :=
  (λ l, renderOrder (h !!! l)) <$> ls.

(** The invariants hold and render orders fall strictly from the front
    to the tail. *)
Definition ordered (s : ZIndexManager) : Prop :=
  ∃ ls, linked s ls ∧ strictly_decreasing (ranks (objs s) ls).


(** ** Sample states *)

(** Blocks C, B, A, front first, with render orders 9000, 8999, 8998. *)
Definition sample_CBA : ZIndexManager :=
  mkManager
    (<[1%positive := mkNode "C" 1067 9000 (Some 2%positive) None]>
     (<[2%positive := mkNode "B" 1066 8999 (Some 3%positive) (Some 1%positive)]>
      (<[3%positive := mkNode "A" 1065 8998 None (Some 2%positive)]> ∅)))
    (Some 1%positive)
    (<["C" := 1%positive]> (<["B" := 2%positive]> (<["A" := 3%positive]> ∅))).

(** [sample_CBA] after [removeBlock "B"]. *)
Definition sample_CA : ZIndexManager :=
  mkManager
    (<[1%positive := mkNode "C" 1067 9000 (Some 3%positive) None]>
     (<[2%positive := mkNode "B" 1066 8999 (Some 3%positive) (Some 1%positive)]>
      (<[3%positive := mkNode "A" 1065 8998 None (Some 1%positive)]> ∅)))
    (Some 1%positive)
    (<["C" := 1%positive]> (<["A" := 3%positive]> ∅)).

(** ** The hash as a polynomial *)

(** The value the loop of generateFixedZIndex computes when numbers do
    not wrap: [hash * 31 + charCode] at every step. *)
Fixpoint poly31 (rest : string) (hash : Z) : Z :=
  match rest with
  | EmptyString => hash
  | String c rest' => poly31 rest' (31 * hash + charCode c)
  end.

(** ** Block *)

(** State-and-exception monad over any state, of which [M] is the
    instance at [ZIndexManager]. *)
Definition ST (S A : Type) : Type := S → S * outcome A.

Definition st_ret {S A} (a : A) : ST S A := λ s, (s, Ok a).

Definition st_bind {S A B} (m : ST S A) (k : A → ST S B) : ST S B := λ s,
  match m s with
  | (s', Ok a) => k a s'
  | (s', Throw msg) => (s', Throw msg)
  | (s', Diverge) => (s', Diverge)
  end.

Declare Scope st_scope.
Delimit Scope st_scope with st.
Notation "x ← m ; k" := (st_bind m (λ x, k))
  (at level 20, m at level 100, k at level 200, only parsing) : st_scope.
Notation "m ;; k" := (st_bind m (λ _, k))
  (at level 100, k at level 200, right associativity, only parsing) : st_scope.

(** Of a THREE.Mesh, what the ordering code reads and writes: the
    [renderOrder] (0 in a new mesh) and whether [dispose()] was called on
    its geometry and on its material. *)
Module Mesh.
Record t : Type := mk {
  renderOrder : Z;
  geometry_disposed : bool;
  material_disposed : bool
}.
Definition new : t := mk 0 false false.
End Mesh.

(** class Block.  A method runs on the shared manager (the static field
    [zIndexManager], which is [ZIndexManager.getInstance()]) and on the
    block [this]. *)
Module Block.
Local Open Scope st_scope.

Record t : Type := mk {
  id : string;
  mesh : Mesh.t
}.

Definition state : Type := ZIndexManager * t.

(** A call on [Block.zIndexManager]. *)
Definition zIndexManager {A} (m : M A) : ST state A := λ st,
  match m st.1 with
  | (s', o) => ((s', st.2), o)
  end.

Definition this_id : ST state string := λ st, (st, Ok (id st.2)).
Definition this_mesh : ST state Mesh.t := λ st, (st, Ok (mesh st.2)).
Definition set_mesh (f : Mesh.t → Mesh.t) : ST state unit := λ st,
  ((st.1, mk (id st.2) (f (mesh st.2))), Ok tt).

Definition mesh_set_renderOrder (order : Z) : ST state unit :=
  set_mesh (λ m, Mesh.mk order (Mesh.geometry_disposed m) (Mesh.material_disposed m)).
Definition mesh_geometry_dispose : ST state unit :=
  set_mesh (λ m, Mesh.mk (Mesh.renderOrder m) true (Mesh.material_disposed m)).
Definition mesh_material_dispose : ST state unit :=
  set_mesh (λ m, Mesh.mk (Mesh.renderOrder m) (Mesh.geometry_disposed m) true).

Definition getMesh : ST state Mesh.t := this_mesh.

Definition getZIndex : ST state Z :=
  i ← this_id;
  zIndexManager (getZIndex i).

Definition updateRenderOrder : ST state unit :=
  i ← this_id;
  renderOrder ← zIndexManager (getRenderOrder i);
  mesh_set_renderOrder renderOrder.

Definition assignZIndex : ST state unit :=
  i ← this_id;
  zIndexManager (moveToFront i);;
  updateRenderOrder.

Definition bringToFront : ST state unit :=
  i ← this_id;
  zIndexManager (moveToFront i);;
  updateRenderOrder.

Definition setRenderOrder (order : Z) : ST state unit :=
  mesh_set_renderOrder order.

Definition getId : ST state string := this_id.

Definition dispose : ST state unit :=
  i ← this_id;
  zIndexManager (removeBlock i);;
  mesh_geometry_dispose;;
  mesh_material_dispose.

(** The constructor, for the id it draws ([block_<time>_<random>]): it
    builds the mesh and ends with [this.assignZIndex()]. *)
Definition new (i : string) : ST ZIndexManager t := λ s,
  match assignZIndex (s, mk i Mesh.new) with
  | ((s', this), Ok _) => (s', Ok this)
  | ((s', _), Throw msg) => (s', Throw msg)
  | ((s', _), Diverge) => (s', Diverge)
  end.

(** The render order the manager [s] reports for the id [i]. *)
Definition reported (s : ZIndexManager) (i : string) : Z :=
  match eval (getRenderOrder i) s with
  | Ok order => order
  | _ => baseRenderOrder
  end.

(** The block after [mesh.renderOrder = order]. *)
Definition with_renderOrder (order : Z) (b : t) : t :=
  mk (id b)
     (Mesh.mk order (Mesh.geometry_disposed (mesh b))
        (Mesh.material_disposed (mesh b))).

(** The block whose mesh shows the render order [s] reports for it. *)
Definition synced (s : ZIndexManager) (b : t) : t :=
  with_renderOrder (reported s (id b)) b.

(** The block after its geometry and its material were disposed. *)
Definition disposed (b : t) : t :=
  mk (id b) (Mesh.mk (Mesh.renderOrder (mesh b)) true true).

End Block.

(** ** Canvas *)

(** The component Canvas: the manager and the array [blocks] of its
    state.  Of the handlers, the calls on blocks and on the manager. *)
Module Canvas.
Local Open Scope st_scope.

Record state : Type := mk {
  manager : ZIndexManager;
  blocks : list Block.t
}.

(** [blocks.forEach(block => f(block))]: an exception ends the loop and
    leaves what the calls before it have done. *)
Fixpoint forEach (f : ST Block.state unit) (bs : list Block.t)
    (s : ZIndexManager) : ZIndexManager * list Block.t * outcome unit :=
  match bs with
  | [] => (s, [], Ok tt)
  | b :: bs' =>
      match f (s, b) with
      | ((s', b'), Ok _) =>
          match forEach f bs' s' with
          | (s'', bs'', o) => (s'', b' :: bs'', o)
          end
      | ((s', b'), Throw msg) => (s', b' :: bs', Throw msg)
      | ((s', b'), Diverge) => (s', b' :: bs', Diverge)
      end
  end.

Definition blocks_forEach (f : ST Block.state unit) : ST state unit := λ w,
  match forEach f (blocks w) (manager w) with
  | (s', bs', o) => (mk s' bs', o)
  end.

Definition setBlocks (f : list Block.t → list Block.t) : ST state unit := λ w,
  (mk (manager w) (f (blocks w)), Ok tt).

(** A call on [ZIndexManager.getInstance()]. *)
Definition getInstance {A} (m : M A) : ST state A := λ w,
  match m (manager w) with
  | (s', o) => (mk s' (blocks w), o)
  end.

(** handleUpdate of InteractiveBlocks; [onBlockUpdate([...blocks])] sets
    the state to a copy of the array. *)
Definition handleUpdate : ST state unit :=
  blocks_forEach Block.updateRenderOrder;;
  setBlocks (λ _bs, _bs).

(** addBlock, for the id the new block draws. *)
Definition addBlock (i : string) : ST state unit :=
  newBlock ← getInstance (Block.new i);
  setBlocks (λ prev, prev ++ [newBlock]).

Definition removeAllBlocks : ST state unit :=
  blocks_forEach Block.dispose;;
  setBlocks (λ _, []);;
  getInstance reset.

(** A call of a method on the block [blocks[k]]; nothing happens for an
    index out of the array. *)
Definition on_block {A} (k : nat) (f : ST Block.state A) (dflt : A)
    : ST state A := λ w,
  match blocks w !! k with
  | Some b =>
      match f (manager w, b) with
      | ((s', b'), o) => (mk s' (<[k := b']> (blocks w)), o)
      end
  | None => (w, Ok dflt)
  end.

(** handlePointerDown of the InteractiveBlock of [blocks[k]]:
    [block.bringToFront(); onUpdate()]. *)
Definition handlePointerDown (k : nat) : ST state unit :=
  on_block k Block.bringToFront tt;;
  handleUpdate.

Definition initial : state := mk newManager [].

(** What a user can do: add a block, press on a block, clear all.  A
    handler that ends in an error leaves the state it has reached. *)
Inductive step : state → state → Prop :=
  | step_addBlock i w : step w (addBlock i w).1
  | step_handlePointerDown k w :
      is_Some (blocks w !! k) → step w (handlePointerDown k w).1
  | step_removeAllBlocks w : step w (removeAllBlocks w).1.

Definition reachable (w : state) : Prop := rtc step initial w.

End Canvas.

(** * Properties *)

(** ** The monad and the sample states *)

Lemma removeBlock_untracked id s :
  blockMap s !! id = None → removeBlock id s = (s, Ok tt).
Proof.
  intros H. unfold removeBlock, bind, blockMap_get, ret. by rewrite H.
Qed.

Lemma removeBlock_tracked id node s :
  blockMap s !! id = Some node →
  removeBlock id s = (unlinked id node s, Throw "Not implemented").
Proof.
  intros H. unfold removeBlock, unlinked, bind, blockMap_get. rewrite H.
  unfold get_head, read, write, set_head, blockMap_delete, updateRenderOrders,
    throw, ret.
  destruct (decide (head s = Some node)); cbn [objs head blockMap];
    destruct (prev (objs s !!! node)); cbn [objs head blockMap];
    match goal with |- context [next (?h !!! node)] =>
      destruct (next (h !!! node)) end; reflexivity.
Qed.

Example removeBlock_B_sample : exec (removeBlock "B") sample_CBA = sample_CA.
Proof. vm_compute. reflexivity. Qed.

(** ** Chains of nodes *)

Section Seg.
Implicit Types (h : gmap positive ZIndexNode) (p c e : option positive).
Implicit Types (l : positive) (ls : list positive).

Lemma last_or_cons p l ls : last_or p (l :: ls) = last_or (Some l) ls.
Proof. unfold last_or. rewrite last_cons. by destruct (last ls). Qed.

Lemma last_or_snoc p ls l : last_or p (ls ++ [l]) = Some l.
Proof. unfold last_or. by rewrite last_snoc. Qed.

Lemma seg_app h p c ls1 ls2 e :
  seg h p c (ls1 ++ ls2) e ↔
  ∃ m, seg h p c ls1 m ∧ seg h (last_or p ls1) m ls2 e.
Proof.
  revert p c. induction ls1 as [|l ls1 IH]; intros p c; simpl.
  - split; [intros H; by exists c | by intros (m & -> & H)].
  - setoid_rewrite last_or_cons. split.
    + intros (-> & n & Hn & Hp & H). apply IH in H as (m & H1 & H2).
      exists m. split; [|done]. split; [done|]. by exists n.
    + intros (m & (-> & n & Hn & Hp & H1) & H2). split; [done|].
      exists n. repeat split; try done. apply IH. by exists m.
Qed.

(** A chain only depends on the nodes it visits. *)
Lemma seg_frame h h' p c ls e :
  (∀ l, l ∈ ls → h' !! l = h !! l) → seg h p c ls e → seg h' p c ls e.
Proof.
  revert p c. induction ls as [|l ls IH]; intros p c Hag; simpl; [done|].
  intros (-> & n & Hn & Hp & H). split; [done|]. exists n.
  split; [rewrite Hag; [done | left] |].
  split; [done|]. apply IH; [|done]. intros l' Hl'. apply Hag. by right.
Qed.

Lemma seg_alter_other h f k p c ls e :
  k ∉ ls → seg h p c ls e → seg (alter f k h) p c ls e.
Proof.
  intros Hk. apply seg_frame. intros l Hl. apply lookup_alter_ne.
  intros ->. done.
Qed.

(** Writing [next] of the last node redirects the end of the chain. *)
Lemma seg_set_next_last h p c ls q e v :
  q ∉ ls → seg h p c (ls ++ [q]) e →
  seg (alter (set_next v) q h) p c (ls ++ [q]) v.
Proof.
  intros Hq H. apply seg_app in H as (m & H1 & H2). apply seg_app.
  exists m. split; [by apply seg_alter_other|].
  destruct H2 as (-> & n & Hn & Hp & _). simpl. split; [done|].
  exists (set_next v n). split; [|done].
  rewrite lookup_alter_eq, Hn. done.
Qed.

(** Writing [prev] of the first node changes what the chain comes from. *)
Lemma seg_set_prev_first h p c l ls e v :
  l ∉ ls → seg h p c (l :: ls) e →
  seg (alter (set_prev v) l h) v c (l :: ls) e.
Proof.
  intros Hl (-> & n & Hn & Hp & H). simpl. split; [done|].
  exists (set_prev v n). split; [by rewrite lookup_alter_eq, Hn|].
  split; [done|]. simpl. by apply seg_alter_other.
Qed.

(** The first node of a chain is where it starts. *)
Lemma seg_start h p c ls e :
  seg h p c ls e → ls ≠ [] → c = ls !! 0%nat.
Proof. destruct ls; [done|]. by intros (-> & _) _. Qed.

Lemma seg_allocated h p c ls e l :
  seg h p c ls e → l ∈ ls → is_Some (h !! l).
Proof.
  revert p c. induction ls as [|l' ls IH]; intros p c; simpl.
  - intros _ Hl. by apply elem_of_nil in Hl.
  - intros (-> & n & Hn & Hp & H) [->|Hl]%elem_of_cons; [by exists n|].
    by eapply IH.
Qed.

Lemma seg_length h p c ls e :
  NoDup ls → seg h p c ls e → (length ls ≤ size h)%nat.
Proof.
  intros Hnd H.
  rewrite <-(size_list_to_set (C:=gset positive) ls), <-size_dom by done.
  apply subseteq_size. intros l Hl. apply elem_of_list_to_set in Hl.
  apply elem_of_dom. by eapply seg_allocated.
Qed.

End Seg.

(** ** Unlinking a node *)

Section Unlink.
Implicit Types (h : gmap positive ZIndexNode) (s : ZIndexManager).
Implicit Types (l : positive) (ls : list positive).

Lemma snoc_case ls : ls = [] ∨ ∃ ls' q, ls = ls' ++ [q].
Proof. destruct ls as [|q ls' _] using rev_ind; [by left | right; eauto]. Qed.

(** Writing [next] or [prev] leaves the other fields of every node. *)
Lemma alter_field {A} (g : ZIndexNode → A) (f : ZIndexNode → ZIndexNode) h k l :
  (∀ n, g (f n) = g n) → g (alter f k h !!! l) = g (h !!! l).
Proof.
  intros Hg. rewrite !lookup_total_alt. destruct (decide (k = l)) as [->|].
  - rewrite lookup_alter_eq. destruct (h !! l); simpl; [apply Hg | done].
  - by rewrite lookup_alter_ne.
Qed.

Lemma unlinked_field {A} (g : ZIndexNode → A) id node s l :
  (∀ v n, g (set_next v n) = g n) → (∀ v n, g (set_prev v n) = g n) →
  g (objs (unlinked id node s) !!! l) = g (objs s !!! l).
Proof.
  intros Hn Hp. unfold unlinked. cbn [objs].
  destruct (next _); [rewrite alter_field by apply Hp|];
    (destruct (prev (objs s !!! node)); [by rewrite alter_field by apply Hn | done]).
Qed.

Lemma unlinked_blockMap id node s :
  blockMap (unlinked id node s) = delete id (blockMap s).
Proof. reflexivity. Qed.

Lemma unlinked_chain id l s ls1 ls2 :
  NoDup (ls1 ++ l :: ls2) →
  seg (objs s) None (head s) (ls1 ++ l :: ls2) None →
  seg (objs (unlinked id l s)) None (head (unlinked id l s)) (ls1 ++ ls2) None.
Proof.
  intros Hnd Hc.
  apply NoDup_app in Hnd as (Hnd1 & Hdisj & [Hl2 Hnd2]%NoDup_cons).
  apply seg_app in Hc as (m & H1 & -> & n & Hn & Hp & H3).
  unfold unlinked. cbn [objs head].
  rewrite (lookup_total_correct _ _ _ Hn).
  destruct (snoc_case ls1) as [->|(ls1' & q & ->)].
  - (* the node is the head *)
    simpl in H1. unfold last_or in Hp. simpl in Hp.
    rewrite H1, Hp, decide_True by done.
    rewrite (lookup_total_correct _ _ _ Hn), Hp.
    destruct ls2 as [|nx ls2']; simpl in H3.
    + rewrite H3. simpl. done.
    + destruct H3 as [Hnx H3']. rewrite Hnx. simpl app.
      apply NoDup_cons in Hnd2 as [Hnx2 _].
      apply (seg_set_prev_first _ (Some l)); [done|]. split; [done|]. exact H3'.
  - (* the node has a predecessor q *)
    rewrite last_or_snoc in Hp. rewrite Hp.
    assert (q ≠ l) as Hql.
    { intros ->. apply (Hdisj l); [apply elem_of_app; right; left | left]. }
    assert (head s ≠ Some l) as Hhd.
    { rewrite (seg_start _ _ _ _ _ H1) by (by destruct ls1').
      intros Hl%list_elem_of_lookup_2. apply (Hdisj l); [done | left]. }
    rewrite decide_False by done.
    apply NoDup_app in Hnd1 as (_ & Hq & _).
    assert (q ∉ ls1') as Hq1.
    { intros Hin. apply (Hq q); [done | left]. }
    assert (alter (set_next (next n)) q (objs s) !!! l = n) as ->.
    { apply lookup_total_correct. by rewrite lookup_alter_ne. }
    destruct ls2 as [|nx ls2']; simpl in H3.
    + rewrite H3, app_nil_r. by eapply seg_set_next_last.
    + destruct H3 as [Hnx H3']. rewrite Hnx, Hp.
      apply NoDup_cons in Hnd2 as [Hnx2 _].
      assert (nx ∉ ls1' ++ [q]) as Hnx1.
      { intros Hin. apply (Hdisj nx); [done | right; left]. }
      assert (q ∉ nx :: ls2') as Hq2.
      { intros Hin. apply (Hdisj q); [apply elem_of_app; right; left | by right]. }
      apply seg_app. exists (Some nx). split.
      * apply seg_alter_other; [done|]. by eapply seg_set_next_last.
      * rewrite last_or_snoc. apply (seg_set_prev_first _ (Some l)); [done|].
        apply seg_alter_other; [done|]. split; [done|]. exact H3'.
Qed.

(** Unlinking a tracked node keeps the invariants, for the list without
    that node. *)
Lemma unlinked_linked id l s ls1 ls2 :
  linked s (ls1 ++ l :: ls2) → blockMap s !! id = Some l →
  linked (unlinked id l s) (ls1 ++ ls2).
Proof.
  intros [Hc Hnd Hidx] Hl. split.
  - by apply unlinked_chain.
  - apply NoDup_app in Hnd as (Hnd1 & Hdisj & [Hl2 Hnd2]%NoDup_cons).
    apply NoDup_app. repeat split; [done | | done].
    intros k Hk1 Hk2. apply (Hdisj k); [done | by right].
  - intros id' l'. rewrite unlinked_blockMap, lookup_delete_Some, Hidx.
    rewrite unlinked_field by done.
    apply Hidx in Hl as [_ Hidl].
    apply NoDup_app in Hnd as (Hnd1 & Hdisj & [Hl2 Hnd2]%NoDup_cons).
    rewrite !elem_of_app, elem_of_cons. split.
    + intros (Hne & [Hin|[->|Hin]] & Hid); [by auto | congruence | by auto].
    + intros ([Hin|Hin] & Hid); (split; [|by auto]); intros <-.
      * assert (l' = l) as ->.
        { assert (blockMap s !! id = Some l') as E1
            by (apply Hidx; split; [apply elem_of_app; by left | done]).
          assert (blockMap s !! id = Some l) as E2
            by (apply Hidx; split; [apply elem_of_app; right; left | done]).
          congruence. }
        apply (Hdisj l); [done | left].
      * assert (l' = l) as ->.
        { assert (blockMap s !! id = Some l') as E1
            by (apply Hidx; split; [apply elem_of_app; right; by right | done]).
          assert (blockMap s !! id = Some l) as E2
            by (apply Hidx; split; [apply elem_of_app; right; left | done]).
          congruence. }
        done.
Qed.

End Unlink.

(** ** The two list walks *)

Section Walk.
Implicit Types (h : gmap positive ZIndexNode) (c : option positive).
Implicit Types (l : positive) (ls : list positive).

Lemma getAllBlocks_loop_path h c ls fuel :
  path h c ls → (length ls ≤ fuel)%nat →
  getAllBlocks_loop fuel h c = Some (ids_of h ls).
Proof.
  revert c fuel. induction ls as [|l ls IH]; intros c fuel; simpl.
  - intros -> _. by destruct fuel.
  - intros [-> H] Hlen. destruct fuel as [|fuel]; [lia|]. simpl.
    rewrite (IH _ fuel H) by lia. done.
Qed.

Lemma getBlocksNeedingUpdate_loop_path h c ls fuel :
  path h c ls → (length ls ≤ fuel)%nat →
  getBlocksNeedingUpdate_loop fuel h c = Some (entries_of h ls).
Proof.
  revert c fuel. induction ls as [|l ls IH]; intros c fuel; simpl.
  - intros -> _. by destruct fuel.
  - intros [-> H] Hlen. destruct fuel as [|fuel]; [lia|]. simpl.
    rewrite (IH _ fuel H) by lia. done.
Qed.

Lemma getAllBlocks_loop_inv h c fuel ids :
  getAllBlocks_loop fuel h c = Some ids →
  ∃ ls, path h c ls ∧ (length ls ≤ fuel)%nat ∧ ids = ids_of h ls.
Proof.
  revert c ids. induction fuel as [|fuel IH]; intros [l|] ids; simpl;
    try done; try (intros [= <-]; exists []; simpl; by auto with lia).
  destruct (getAllBlocks_loop fuel h (next (h !!! l))) as [rest|] eqn:E;
    simpl; [|done].
  intros [= <-]. apply IH in E as (ls & Hp & Hlen & ->).
  exists (l :: ls). simpl. auto with lia.
Qed.

Lemma path_deterministic h c ls1 ls2 : path h c ls1 → path h c ls2 → ls1 = ls2.
Proof.
  revert c ls2. induction ls1 as [|l ls1 IH]; intros c [|l2 ls2]; simpl.
  - done.
  - intros -> [? _]. done.
  - intros [-> _] ?. done.
  - intros [-> H1] [[= <-] H2]. f_equal. by eapply IH.
Qed.

Lemma path_suffix h c ls1 l ls2 :
  path h c (ls1 ++ l :: ls2) → path h (Some l) (l :: ls2).
Proof.
  revert c. induction ls1 as [|l1 ls1 IH]; intros c; simpl.
  - intros [_ H]. done.
  - intros [_ H]. by eapply IH.
Qed.

(** A walk that ends visits no node twice. *)
Lemma path_NoDup h c ls : path h c ls → NoDup ls.
Proof.
  revert c. induction ls as [|l ls IH]; intros c; [constructor|].
  intros [-> H]. constructor; [|by eapply IH].
  intros (ls1 & ls2 & ->)%list_elem_of_split.
  assert (path h (Some l) (l :: ls1 ++ l :: ls2)) as H1 by done.
  assert (path h (Some l) (l :: ls2)) as H2 by by eapply path_suffix.
  pose proof (path_deterministic _ _ _ _ H1 H2) as E.
  apply (f_equal length) in E. simpl in E. rewrite length_app in E.
  simpl in E. lia.
Qed.

(** Every visited node but the last one is in the object store. *)
Lemma path_allocated h c ls q l :
  path h c (ls ++ [q]) → l ∈ ls → is_Some (h !! l).
Proof.
  revert c. induction ls as [|l' ls IH]; intros c; simpl.
  - intros _ Hl. by apply elem_of_nil in Hl.
  - intros [-> H] [->|Hl]%elem_of_cons; [|by eapply IH].
    destruct (h !! l') as [n|] eqn:E; [by eexists|].
    rewrite lookup_total_alt, E in H. simpl in H.
    destruct ls; simpl in H; by destruct H.
Qed.

Lemma path_length h c ls : path h c ls → (length ls ≤ S (size h))%nat.
Proof.
  intros H. pose proof (path_NoDup _ _ _ H) as Hnd.
  destruct (snoc_case ls) as [->|(ls' & q & ->)]; [simpl; lia|].
  rewrite length_app. simpl. apply NoDup_app in Hnd as (Hnd & _ & _).
  rewrite <-(size_list_to_set (C:=gset positive) ls'), <-size_dom by done.
  enough (list_to_set ls' ⊆ dom h) as Hsub by (apply subseteq_size in Hsub; lia).
  intros l Hl%elem_of_list_to_set. apply elem_of_dom.
  by eapply path_allocated.
Qed.

(** [S (size h)] iterations are enough for every walk that ends: where
    the model says [Diverge], the loop does not end. *)
Lemma fuel_enough h c fuel ids :
  getAllBlocks_loop fuel h c = Some ids →
  getAllBlocks_loop (S (size h)) h c = Some ids.
Proof.
  intros (ls & Hp & _ & ->)%getAllBlocks_loop_inv.
  apply getAllBlocks_loop_path; [done|]. by eapply path_length.
Qed.

Lemma seg_path h p c ls : seg h p c ls None → path h c ls.
Proof.
  revert p c. induction ls as [|l ls IH]; intros p c; simpl; [done|].
  intros (-> & n & Hn & _ & H). split; [done|].
  rewrite (lookup_total_correct _ _ _ Hn). by eapply IH.
Qed.

(** Both loops visit the same nodes. *)
Lemma loops_agree fuel h c :
  (map fst <$> getBlocksNeedingUpdate_loop fuel h c) = getAllBlocks_loop fuel h c.
Proof.
  revert c. induction fuel as [|fuel IH]; intros [l|]; simpl; try done.
  rewrite <-IH. by destruct (getBlocksNeedingUpdate_loop fuel h _).
Qed.

Lemma getBlocksNeedingUpdate_loop_mono h c fuel fuel' es :
  getBlocksNeedingUpdate_loop fuel h c = Some es → (fuel ≤ fuel')%nat →
  getBlocksNeedingUpdate_loop fuel' h c = Some es.
Proof.
  revert c fuel' es. induction fuel as [|fuel IH]; intros [l|] fuel' es;
    simpl; try done; try (intros [= <-] _; by destruct fuel').
  destruct (getBlocksNeedingUpdate_loop fuel h (next (h !!! l))) as [rest|] eqn:E;
    simpl; [|done].
  intros [= <-] Hle. destruct fuel' as [|fuel']; [lia|]. simpl.
  rewrite (IH _ fuel' _ E) by lia. done.
Qed.

Lemma fuel_enough_entries h c fuel es :
  getBlocksNeedingUpdate_loop fuel h c = Some es →
  getBlocksNeedingUpdate_loop (S (size h)) h c = Some es.
Proof.
  intros H. destruct (decide (fuel ≤ S (size h))%nat) as [Hle|Hgt];
    [by eapply getBlocksNeedingUpdate_loop_mono|].
  pose proof (loops_agree fuel h c) as Ha. rewrite H in Ha. simpl in Ha.
  symmetry in Ha. apply fuel_enough in Ha. rewrite <-loops_agree in Ha.
  destruct (getBlocksNeedingUpdate_loop (S (size h)) h c) as [es'|] eqn:E;
    [|done].
  pose proof (getBlocksNeedingUpdate_loop_mono _ _ _ fuel _ E) as H'.
  rewrite H' in H by lia. by injection H as ->.
Qed.

End Walk.

(** What the walks return in a state that satisfies the invariants. *)
Lemma getAllBlocks_linked s ls :
  linked s ls → getAllBlocks s = (s, Ok (ids_of (objs s) ls)).
Proof.
  intros [Hc Hnd _]. unfold getAllBlocks, loop_fuel.
  rewrite (getAllBlocks_loop_path _ _ ls); [done | by eapply seg_path |].
  etrans; [by eapply seg_length | lia].
Qed.

Lemma getBlocksNeedingUpdate_linked s ls :
  linked s ls → getBlocksNeedingUpdate s = (s, Ok (entries_of (objs s) ls)).
Proof.
  intros [Hc Hnd _]. unfold getBlocksNeedingUpdate, loop_fuel.
  rewrite (getBlocksNeedingUpdate_loop_path _ _ ls); [done | by eapply seg_path |].
  etrans; [by eapply seg_length | lia].
Qed.

(** ** The sample states satisfy the invariants *)

Lemma sample_CBA_linked : linked sample_CBA [1; 2; 3]%positive.
Proof.
  split.
  - simpl. repeat (split; [done|]; eexists; split; [reflexivity|]; split; [done|]).
    done.
  - by apply (bool_decide_unpack _).
  - intros id l. unfold sample_CBA; cbn [blockMap objs]. split.
    + intros H.
      repeat (apply lookup_insert_Some in H as [[<- <-]|[_ H]];
              [split; [set_solver | reflexivity]|]).
      by rewrite lookup_empty in H.
    + intros [Hl <-]. repeat (apply elem_of_cons in Hl as [->|Hl]; [reflexivity|]).
      by apply elem_of_nil in Hl.
Qed.

Lemma sample_CBA_wf : wf sample_CBA.
Proof. eexists. apply sample_CBA_linked. Qed.

Lemma sample_CBA_keys_stable : keys_stable sample_CBA.
Proof.
  intros id l H. unfold sample_CBA in H; cbn [blockMap] in H.
  repeat (apply lookup_insert_Some in H as [[<- <-]|[_ H]]; [reflexivity|]).
  by rewrite lookup_empty in H.
Qed.

(** ** Invariants are kept by every call *)

Lemma linked_reset s : linked (exec reset s) [].
Proof.
  split; [done | constructor |]. intros id l. cbn. rewrite lookup_empty.
  split; [done | by intros [?%elem_of_nil _]].
Qed.

Lemma exec_removeBlock id s :
  exec (removeBlock id) s =
  match blockMap s !! id with
  | Some node => unlinked id node s
  | None => s
  end.
Proof.
  unfold exec. destruct (blockMap s !! id) as [node|] eqn:E.
  - by rewrite (removeBlock_tracked _ _ _ E).
  - by rewrite (removeBlock_untracked _ _ E).
Qed.

Lemma exec_getZIndex id s : exec (getZIndex id) s = s.
Proof.
  unfold exec, getZIndex, bind, blockMap_get. by destruct (blockMap s !! id).
Qed.

Lemma exec_getRenderOrder id s : exec (getRenderOrder id) s = s.
Proof.
  unfold exec, getRenderOrder, bind, blockMap_get. by destruct (blockMap s !! id).
Qed.

Lemma step_wf s s' : step s s' → wf s → wf s'.
Proof.
  intros Hstep [ls Hl].
  destruct Hstep as [id s| s|id s|id s|id s| s| s| s];
    rewrite ?exec_getZIndex, ?exec_getRenderOrder; try (by exists ls).
  - rewrite exec_removeBlock. destruct (blockMap s !! id) as [node|] eqn:E;
      [|by exists ls].
    pose proof E as [Hin _]%(linked_index _ _ Hl).
    apply list_elem_of_split in Hin as (ls1 & ls2 & ->).
    exists (ls1 ++ ls2). by apply unlinked_linked.
  - exists []. apply linked_reset.
Qed.

Lemma step_keys_stable s s' : step s s' → keys_stable s → keys_stable s'.
Proof.
  intros Hstep Hk.
  destruct Hstep as [id s| s|id s|id s|id s| s| s| s];
    rewrite ?exec_getZIndex, ?exec_getRenderOrder; try done.
  - rewrite exec_removeBlock. destruct (blockMap s !! id) as [node|] eqn:E;
      [|done].
    intros id' l. rewrite unlinked_blockMap. intros [_ H]%lookup_delete_Some.
    rewrite unlinked_field by done.
    by apply Hk.
Qed.

(** [moveToFront] adds nothing, so no call ever leaves the state of the
    fresh manager. *)
Lemma reachable_newManager s : reachable s → s = newManager.
Proof.
  revert s. apply rtc_ind_r; [done|]. intros s s' _ Hstep ->.
  inversion Hstep; reflexivity.
Qed.


Lemma reachable_keys_stable s : reachable s → keys_stable s.
Proof.
  revert s. apply rtc_ind_r.
  - intros id l H. cbn in H. by rewrite lookup_empty in H.
  - intros s s' _ Hstep IH. by eapply step_keys_stable.
Qed.

(** ** The hash *)

Lemma to_int32_range z : - 2 ^ 31 ≤ to_int32 z < 2 ^ 31.
Proof.
  unfold to_int32. pose proof (Z.mod_pos_bound (z + 2 ^ 31) (2 ^ 32)). lia.
Qed.

Lemma js_and_mask a : js_and a 0xffffffff = to_int32 a.
Proof.
  unfold js_and. change (to_int32 0xffffffff) with (-1). apply Z.land_m1_r.
Qed.

Lemma hash_loop_range id hash :
  - 2 ^ 31 ≤ hash < 2 ^ 31 → - 2 ^ 31 ≤ hash_loop id hash < 2 ^ 31.
Proof.
  revert hash. induction id as [|c id IH]; intros hash H; simpl; [done|].
  apply IH. rewrite js_and_mask. apply to_int32_range.
Qed.

Lemma generateFixedZIndex_range id : 1000 ≤ generateFixedZIndex id < 9000.
Proof.
  unfold generateFixedZIndex. cbv zeta.
  pose proof (Z.rem_bound_pos (Z.abs (hash_loop id 0)) 8000). lia.
Qed.

Example generateFixedZIndex_a : generateFixedZIndex "a" = 1097.
Proof. reflexivity. Qed.

Example generateFixedZIndex_ab : generateFixedZIndex "ab" = 4105.
Proof. reflexivity. Qed.

(** A hash that wraps to a negative value. *)
Example generateFixedZIndex_block :
  hash_loop "block_1730000000000_k3j9x0a1z" 0 = -2000518121 ∧
  generateFixedZIndex "block_1730000000000_k3j9x0a1z" = 7121.
Proof. split; vm_compute; reflexivity. Qed.

(** ** Removing a tracked block *)

Lemma unlinked_ids id l s ls1 ls2 :
  linked s (ls1 ++ l :: ls2) → blockMap s !! id = Some l →
  ids_of (objs s) (ls1 ++ l :: ls2)
    = ids_of (objs s) ls1 ++ id :: ids_of (objs s) ls2 ∧
  ids_of (objs (unlinked id l s)) (ls1 ++ ls2)
    = ids_of (objs s) ls1 ++ ids_of (objs s) ls2 ∧
  id ∉ ids_of (objs s) ls1 ++ ids_of (objs s) ls2.
Proof.
  intros Hl Hid. pose proof (unlinked_linked _ _ _ _ _ Hl Hid) as Hl'.
  assert (ids_of (objs (unlinked id l s)) (ls1 ++ ls2)
          = ids_of (objs s) ls1 ++ ids_of (objs s) ls2) as E.
  { unfold ids_of. rewrite <-fmap_app. apply list_fmap_ext.
    intros _ l' _. by apply unlinked_field. }
  split; [|split; [done|]].
  - unfold ids_of. rewrite fmap_app, fmap_cons.
    by apply (linked_index _ _ Hl) in Hid as [_ ->].
  - rewrite <-E. unfold ids_of.
    intros (l' & Hid' & Hin)%list_elem_of_fmap.
    assert (blockMap (unlinked id l s) !! id = Some l') as H
      by by apply (linked_index _ _ Hl').
    by rewrite unlinked_blockMap, lookup_delete_eq in H.
Qed.


(** ** Render orders along the list *)

Lemma strictly_decreasing_remove (rs1 rs2 : list Z) r :
  strictly_decreasing (rs1 ++ r :: rs2) → strictly_decreasing (rs1 ++ rs2).
Proof.
  unfold strictly_decreasing. rewrite !StronglySorted_app, StronglySorted_cons.
  intros (H12 & H1 & _ & H2). repeat split; [|done..].
  intros x1 x2 Hx1 Hx2. apply H12; [done | by right].
Qed.

Lemma strictly_decreasing_NoDup (rs : list Z) : strictly_decreasing rs → NoDup rs.
Proof.
  induction 1 as [|r rs _ IH Hall]; constructor; [|done].
  intros Hin. rewrite Forall_forall in Hall. specialize (Hall _ Hin). lia.
Qed.

Lemma getRenderOrder_run id s :
  getRenderOrder id s =
  (s, Ok match blockMap s !! id with
         | Some node => renderOrder (objs s !!! node)
         | None => 9000
         end).
Proof.
  unfold getRenderOrder, bind, blockMap_get. by destruct (blockMap s !! id).
Qed.

(** In a state that satisfies the invariants, [getRenderOrder] of the id
    of a listed node is the render order of that node. *)
Lemma linked_getRenderOrder s ls l :
  linked s ls → l ∈ ls →
  eval (getRenderOrder (blockId (objs s !!! l))) s = Ok (renderOrder (objs s !!! l)).
Proof.
  intros Hl Hin. unfold eval. rewrite getRenderOrder_run.
  assert (blockMap s !! blockId (objs s !!! l) = Some l) as ->
    by by apply (linked_index _ _ Hl).
  done.
Qed.

Lemma linked_ranks_of s ls :
  linked s ls → ranks_of s (ids_of (objs s) ls) (ranks (objs s) ls).
Proof.
  intros Hl. unfold ranks_of, ids_of, ranks.
  apply Forall2_fmap, Forall_Forall2_diag, Forall_forall.
  intros l Hin. by eapply linked_getRenderOrder.
Qed.


Lemma step_ordered s s' : step s s' → ordered s → ordered s'.
Proof.
  intros Hstep (ls & Hl & Hsd).
  destruct Hstep as [id s| s|id s|id s|id s| s| s| s];
    rewrite ?exec_getZIndex, ?exec_getRenderOrder; try (by exists ls).
  - rewrite exec_removeBlock. destruct (blockMap s !! id) as [node|] eqn:E;
      [|by exists ls].
    pose proof E as [Hin _]%(linked_index _ _ Hl).
    apply list_elem_of_split in Hin as (ls1 & ls2 & ->).
    exists (ls1 ++ ls2). split; [by apply unlinked_linked|].
    unfold ranks in *. rewrite fmap_app, fmap_cons in Hsd.
    apply strictly_decreasing_remove in Hsd. rewrite <-fmap_app in Hsd.
    erewrite list_fmap_ext; [exact Hsd|].
    intros _ l _. by apply unlinked_field.
  - exists []. split; [apply linked_reset | constructor].
Qed.


Lemma sample_CBA_ordered : ordered sample_CBA.
Proof.
  exists [1; 2; 3]%positive. split; [apply sample_CBA_linked|].
  unfold strictly_decreasing.
  repeat (constructor; [|by repeat constructor]). constructor.
Qed.

(** ** Calls that return *)


(** * The claims *)

(** C1, on the code: [moveToFront] changes nothing and returns 0.  On the
    fresh manager, [moveToFront("a")] leaves [getAllBlocks()] empty; on
    the manager tracking C, B, A, [moveToFront("A")] leaves C in front
    and A behind with render order 8998.  The claim asks for the id in
    front and the rank 9000 returned. *)
Theorem moveToFront_moves_nothing :
  moveToFront "a" newManager = (newManager, Ok 0) ∧
  eval getAllBlocks (exec (moveToFront "a") newManager) = Ok [] ∧
  eval (moveToFront "A") sample_CBA = Ok 0 ∧
  eval getAllBlocks (exec (moveToFront "A") sample_CBA) = Ok ["C"; "B"; "A"] ∧
  eval (getRenderOrder "A") (exec (moveToFront "A") sample_CBA) = Ok 8998.
Proof. repeat split; vm_compute; reflexivity. Qed.






(** C4, on the code: [moveToFront("a")] on the fresh manager, where "a"
    is not in [blockMap], creates no node: "a" is still absent from
    [blockMap] and [getBlockCount()] is still 0.  The claim asks for the
    id present and the count one more. *)
Theorem moveToFront_creates_nothing :
  blockMap newManager !! "a" = None ∧
  blockMap (exec (moveToFront "a") newManager) !! "a" = None ∧
  eval getBlockCount newManager = Ok 0%nat ∧
  eval getBlockCount (exec (moveToFront "a") newManager) = Ok 0%nat.
Proof. repeat split. Qed.

(** C6: [reset()] returns without an error; afterwards
    [getBlockCount()] is 0 and [getAllBlocks()] is empty, and a second
    [reset()] returns and leaves that state as it is. *)
Theorem reset_correct (s : ZIndexManager) :
  ∃ s', reset s = (s', Ok tt) ∧
        eval getBlockCount s' = Ok 0%nat ∧
        eval getAllBlocks s' = Ok [] ∧
        reset s' = (s', Ok tt).
Proof. eexists. split; [reflexivity|]. repeat split. Qed.

(** C7: [getRenderOrder(id)] returns the [renderOrder] of the node
    [blockMap] holds for [id], and 9000 when [blockMap] holds none; in a
    state that satisfies the invariants the former is the render order
    listed for [id] by [getBlocksNeedingUpdate()]. *)
Theorem getRenderOrder_correct (s : ZIndexManager) (id : string) :
  (∀ node, blockMap s !! id = Some node →
     getRenderOrder id s = (s, Ok (renderOrder (objs s !!! node)))) ∧
  (blockMap s !! id = None → getRenderOrder id s = (s, Ok 9000)) ∧
  (wf s → ∀ es r, eval getBlocksNeedingUpdate s = Ok es → (id, r) ∈ es →
     eval (getRenderOrder id) s = Ok r).
Proof.
  repeat split.
  - intros node H. by rewrite getRenderOrder_run, H.
  - intros H. by rewrite getRenderOrder_run, H.
  - intros [ls Hl] es r. unfold eval at 1.
    rewrite (getBlocksNeedingUpdate_linked _ _ Hl). intros [= <-].
    intros (l & [= -> ->] & Hin)%list_elem_of_fmap.
    by eapply linked_getRenderOrder.
Qed.

Lemma getRenderOrder_correct_witness :
  getRenderOrder "B" sample_CBA = (sample_CBA, Ok 8999) ∧
  getRenderOrder "Z" sample_CBA = (sample_CBA, Ok 9000) ∧
  eval (getRenderOrder "A") sample_CBA = Ok 8998.
Proof.
  split; [|split].
  - apply (proj1 (getRenderOrder_correct sample_CBA "B") 2%positive). reflexivity.
  - apply (proj1 (proj2 (getRenderOrder_correct sample_CBA "Z"))). reflexivity.
  - apply (proj2 (proj2 (getRenderOrder_correct sample_CBA "A")) sample_CBA_wf
             [("C", 9000); ("B", 8999); ("A", 8998)]); [reflexivity|].
    apply list_elem_of_In. simpl. auto.
Defined.

(** C8: where every tracked node carries the key of its id,
    [getZIndex(id)] returns [generateFixedZIndex(id)] and leaves the state
    as it is, whether [id] is tracked or not, so a second call returns the
    same value; that value is at least 1000 and below 9000. *)
Theorem getZIndex_stable (s : ZIndexManager) (id : string) :
  keys_stable s →
  getZIndex id s = (s, Ok (generateFixedZIndex id)) ∧
  bind (getZIndex id) (λ a, bind (getZIndex id) (λ b, ret (a, b))) s
    = (s, Ok (generateFixedZIndex id, generateFixedZIndex id)) ∧
  1000 ≤ generateFixedZIndex id < 9000.
Proof.
  intros Hk.
  assert (getZIndex id s = (s, Ok (generateFixedZIndex id))) as E.
  { unfold getZIndex, bind, blockMap_get, read, ret.
    destruct (blockMap s !! id) as [node|] eqn:H; [|done].
    by rewrite (Hk _ _ H). }
  split; [done|]. split; [|apply generateFixedZIndex_range].
  unfold bind at 1. rewrite E. unfold bind. by rewrite E.
Qed.

Lemma getZIndex_stable_witness :
  keys_stable sample_CBA ∧
  (getZIndex "A" sample_CBA = (sample_CBA, Ok 1065) ∧
   bind (getZIndex "A") (λ a, bind (getZIndex "A") (λ b, ret (a, b))) sample_CBA
     = (sample_CBA, Ok (1065, 1065)) ∧
   1000 ≤ 1065 < 9000) ∧
  (getZIndex "a" sample_CBA = (sample_CBA, Ok 1097) ∧
   bind (getZIndex "a") (λ a, bind (getZIndex "a") (λ b, ret (a, b))) sample_CBA
     = (sample_CBA, Ok (1097, 1097)) ∧
   1000 ≤ 1097 < 9000).
Proof.
  split; [exact sample_CBA_keys_stable|]. split.
  - exact (getZIndex_stable sample_CBA "A" sample_CBA_keys_stable).
  - exact (getZIndex_stable sample_CBA "a" sample_CBA_keys_stable).
Defined.

(** C9: the [blockId] fields of the entries [getBlocksNeedingUpdate()]
    returns are the list [getAllBlocks()] returns, in the same order (and
    one call runs forever iff the other does); in a state that satisfies
    the invariants both return. *)
Theorem getBlocksNeedingUpdate_ids (s : ZIndexManager) :
  eval getAllBlocks s = outcome_map (map fst) (eval getBlocksNeedingUpdate s) ∧
  (wf s → ∃ es, eval getBlocksNeedingUpdate s = Ok es ∧
                eval getAllBlocks s = Ok (map fst es) ∧
                length (map fst es) = length es).
Proof.
  assert (eval getAllBlocks s
          = outcome_map (map fst) (eval getBlocksNeedingUpdate s)) as E.
  { unfold eval, getAllBlocks, getBlocksNeedingUpdate. cbn [snd].
    rewrite <-loops_agree. by destruct (getBlocksNeedingUpdate_loop _ _ _). }
  split; [done|]. intros [ls Hl]. exists (entries_of (objs s) ls).
  rewrite E. unfold eval. rewrite (getBlocksNeedingUpdate_linked _ _ Hl).
  repeat split. apply length_map.
Qed.

Lemma getBlocksNeedingUpdate_ids_witness :
  wf sample_CBA ∧
  ∃ es, eval getBlocksNeedingUpdate sample_CBA = Ok es ∧
        eval getAllBlocks sample_CBA = Ok (map fst es) ∧
        length (map fst es) = length es.
Proof.
  split; [exact sample_CBA_wf|].
  exact (proj2 (getBlocksNeedingUpdate_ids sample_CBA) sample_CBA_wf).
Defined.

(** C10: in a state that satisfies the invariants, [removeBlock(id)] for a
    tracked [id] ends in the error of updateRenderOrders, and has by then
    unlinked the node and deleted the id, and nothing else: in the state
    it leaves the invariants hold, [blockMap] is the former one without
    [id], [getAllBlocks()] is the former list without [id], in the same
    order, and every node keeps its id, key and render order. *)
Theorem removeBlock_not_atomic (s : ZIndexManager) (id : string) :
  wf s → is_Some (blockMap s !! id) →
  ∃ s' ids1 ids2,
    removeBlock id s = (s', Throw "Not implemented") ∧
    wf s' ∧
    blockMap s' = delete id (blockMap s) ∧
    blockMap s' !! id = None ∧
    eval getAllBlocks s = Ok (ids1 ++ id :: ids2) ∧
    eval getAllBlocks s' = Ok (ids1 ++ ids2) ∧
    (id ∉ ids1 ++ ids2) ∧
    (∀ l, blockId (objs s' !!! l) = blockId (objs s !!! l) ∧
          fixedZIndex (objs s' !!! l) = fixedZIndex (objs s !!! l) ∧
          renderOrder (objs s' !!! l) = renderOrder (objs s !!! l)).
Proof.
  intros [ls Hl] [l Hid].
  pose proof Hid as [Hin _]%(linked_index _ _ Hl).
  apply list_elem_of_split in Hin as (ls1 & ls2 & ->).
  pose proof (unlinked_linked _ _ _ _ _ Hl Hid) as Hl'.
  destruct (unlinked_ids _ _ _ _ _ Hl Hid) as (E & E' & Hnot).
  exists (unlinked id l s), (ids_of (objs s) ls1), (ids_of (objs s) ls2).
  split; [by apply removeBlock_tracked|].
  split; [by eexists|].
  split; [done|].
  split; [by rewrite unlinked_blockMap, lookup_delete_eq|].
  split; [unfold eval; by rewrite (getAllBlocks_linked _ _ Hl), E|].
  split; [unfold eval; by rewrite (getAllBlocks_linked _ _ Hl'), E'|].
  split; [done|].
  intros l'. by rewrite !unlinked_field.
Qed.

Lemma removeBlock_not_atomic_witness :
  wf sample_CBA ∧ is_Some (blockMap sample_CBA !! "B") ∧
  ∃ s' ids1 ids2,
    removeBlock "B" sample_CBA = (s', Throw "Not implemented") ∧
    wf s' ∧
    blockMap s' = delete "B" (blockMap sample_CBA) ∧
    blockMap s' !! "B" = None ∧
    eval getAllBlocks sample_CBA = Ok (ids1 ++ "B" :: ids2) ∧
    eval getAllBlocks s' = Ok (ids1 ++ ids2) ∧
    ("B" ∉ ids1 ++ ids2) ∧
    (∀ l, blockId (objs s' !!! l) = blockId (objs sample_CBA !!! l) ∧
          fixedZIndex (objs s' !!! l) = fixedZIndex (objs sample_CBA !!! l) ∧
          renderOrder (objs s' !!! l) = renderOrder (objs sample_CBA !!! l)).
Proof.
  assert (is_Some (blockMap sample_CBA !! "B")) as H
    by (exists 2%positive; reflexivity).
  split; [exact sample_CBA_wf|]. split; [exact H|].
  exact (removeBlock_not_atomic sample_CBA "B" sample_CBA_wf H).
Defined.

(** * Further properties of the manager *)

Lemma getZIndex_run id s :
  getZIndex id s =
  (s, Ok match blockMap s !! id with
         | Some node => fixedZIndex (objs s !!! node)
         | None => generateFixedZIndex id
         end).
Proof.
  unfold getZIndex, bind, blockMap_get. by destruct (blockMap s !! id).
Qed.

Lemma exec_removeBlock_blockMap id s :
  blockMap (exec (removeBlock id) s) = delete id (blockMap s).
Proof.
  rewrite exec_removeBlock. destruct (blockMap s !! id) eqn:E; [done|].
  by rewrite delete_id.
Qed.

Lemma exec_removeBlock_field {A} (g : ZIndexNode → A) id s l :
  (∀ v n, g (set_next v n) = g n) → (∀ v n, g (set_prev v n) = g n) →
  g (objs (exec (removeBlock id) s) !!! l) = g (objs s !!! l).
Proof.
  intros Hn Hp. rewrite exec_removeBlock.
  destruct (blockMap s !! id); [by apply unlinked_field | done].
Qed.

Lemma ordered_ranks s :
  ordered s →
  ∃ ids rs,
    eval getAllBlocks s = Ok ids ∧ ranks_of s ids rs ∧
    strictly_decreasing rs ∧ NoDup rs.
Proof.
  intros (ls & Hl & Hsd).
  exists (ids_of (objs s) ls), (ranks (objs s) ls). repeat split.
  - unfold eval. by rewrite (getAllBlocks_linked _ _ Hl).
  - by apply linked_ranks_of.
  - done.
  - by apply strictly_decreasing_NoDup.
Qed.

Lemma linked_ids_NoDup s ls : linked s ls → NoDup (ids_of (objs s) ls).
Proof.
  intros Hl. unfold ids_of. apply NoDup_fmap_2_strong; [|apply Hl].
  intros l1 l2 H1 H2 E.
  assert (blockMap s !! blockId (objs s !!! l1) = Some l1) as E1
    by by apply (linked_index _ _ Hl).
  assert (blockMap s !! blockId (objs s !!! l1) = Some l2) as E2
    by by apply (linked_index _ _ Hl).
  congruence.
Qed.

Lemma linked_ids_tracked s ls id :
  linked s ls → id ∈ ids_of (objs s) ls ↔ is_Some (blockMap s !! id).
Proof.
  intros Hl. unfold ids_of. rewrite list_elem_of_fmap. split.
  - intros (l & -> & Hin). exists l. by apply (linked_index _ _ Hl).
  - intros [l [Hin Hid]%(linked_index _ _ Hl)]. by exists l.
Qed.

Lemma linked_size s ls : linked s ls → size (blockMap s) = length ls.
Proof.
  intros Hl. rewrite <-(length_fmap (λ l, blockId (objs s !!! l)) ls).
  fold (ids_of (objs s) ls).
  rewrite <-(size_list_to_set (C:=gset string)) by by apply linked_ids_NoDup.
  rewrite <-size_dom. f_equal. apply set_eq. intros id.
  by rewrite elem_of_dom, elem_of_list_to_set, linked_ids_tracked.
Qed.

(** X1: Every call keeps the invariants of the list and the keys of the
    tracked nodes, also a [removeBlock] that ends in the error. *)
Theorem calls_keep_invariants (s s' : ZIndexManager) :
  wf s → keys_stable s → step s s' → wf s' ∧ keys_stable s'.
Proof.
  intros Hwf Hk Hstep. split; [by eapply step_wf | by eapply step_keys_stable].
Qed.

Lemma calls_keep_invariants_witness :
  wf (exec (removeBlock "B") sample_CBA) ∧
  keys_stable (exec (removeBlock "B") sample_CBA).
Proof.
  exact (calls_keep_invariants sample_CBA _ sample_CBA_wf
           sample_CBA_keys_stable (step_removeBlock "B" sample_CBA)).
Defined.

(** X2: Where render orders fall strictly along the list, they still do after
    any call: [removeBlock] relabels nothing, and a list with a gap is
    still strictly falling. *)
Theorem calls_keep_order (s s' : ZIndexManager) :
  ordered s → step s s' →
  ∃ ids rs,
    eval getAllBlocks s' = Ok ids ∧ ranks_of s' ids rs ∧
    strictly_decreasing rs ∧ NoDup rs.
Proof. intros Ho Hstep. apply ordered_ranks. by eapply step_ordered. Qed.

Lemma calls_keep_order_witness :
  ∃ ids rs,
    eval getAllBlocks (exec (removeBlock "B") sample_CBA) = Ok ids ∧
    ranks_of (exec (removeBlock "B") sample_CBA) ids rs ∧
    strictly_decreasing rs ∧ NoDup rs.
Proof.
  exact (calls_keep_order sample_CBA _ sample_CBA_ordered
           (step_removeBlock "B" sample_CBA)).
Defined.

(** X3: [removeBlock(x)] changes what no other id reads: for [y] other than
    [x], [getRenderOrder(y)] and [getZIndex(y)] return afterwards what
    they returned before, in every state. *)
Theorem removeBlock_keeps_others (s : ZIndexManager) (x y : string) :
  x ≠ y →
  eval (getRenderOrder y) (exec (removeBlock x) s) = eval (getRenderOrder y) s ∧
  eval (getZIndex y) (exec (removeBlock x) s) = eval (getZIndex y) s.
Proof.
  intros Hxy. unfold eval.
  rewrite !getRenderOrder_run, !getZIndex_run. cbn [snd].
  rewrite exec_removeBlock_blockMap, lookup_delete_ne by done.
  destruct (blockMap s !! y) as [l|]; [|done].
  by rewrite !exec_removeBlock_field.
Qed.

Lemma removeBlock_keeps_others_witness :
  eval (getRenderOrder "A") (exec (removeBlock "B") sample_CBA)
    = eval (getRenderOrder "A") sample_CBA ∧
  eval (getZIndex "A") (exec (removeBlock "B") sample_CBA)
    = eval (getZIndex "A") sample_CBA.
Proof. apply (removeBlock_keeps_others sample_CBA "B" "A"). discriminate. Defined.

(** X4: After [removeBlock(x)], whether it returned or ended in the error,
    [x] is untracked: [getRenderOrder(x)] is 9000, [getZIndex(x)] is the
    hash of [x], and a second [removeBlock(x)] returns and changes
    nothing. *)
Theorem removeBlock_then_untracked (s : ZIndexManager) (x : string) :
  ∃ s', exec (removeBlock x) s = s' ∧
        getRenderOrder x s' = (s', Ok 9000) ∧
        getZIndex x s' = (s', Ok (generateFixedZIndex x)) ∧
        removeBlock x s' = (s', Ok tt).
Proof.
  eexists. split; [done|].
  assert (blockMap (exec (removeBlock x) s) !! x = None) as H
    by by rewrite exec_removeBlock_blockMap, lookup_delete_eq.
  by rewrite getRenderOrder_run, getZIndex_run, (removeBlock_untracked _ _ H), H.
Qed.

(** X5: After [reset()], in whatever state it was called, the invariants
    hold, no id is tracked and no [removeBlock] ends in an error. *)
Theorem reset_then_untracked (s : ZIndexManager) (id : string) :
  ∃ s', exec reset s = s' ∧
        wf s' ∧ keys_stable s' ∧
        removeBlock id s' = (s', Ok tt) ∧
        getRenderOrder id s' = (s', Ok 9000) ∧
        getZIndex id s' = (s', Ok (generateFixedZIndex id)).
Proof.
  eexists. split; [done|].
  split; [exists []; apply linked_reset|].
  split; [intros i l H; cbn in H; by rewrite lookup_empty in H|].
  done.
Qed.

(** X6: In a state that satisfies the invariants, [getAllBlocks()] lists
    every tracked id once and no other id, and [getBlockCount()] is the
    length of that list. *)
Theorem getAllBlocks_matches_blockMap (s : ZIndexManager) :
  wf s →
  ∃ ids, eval getAllBlocks s = Ok ids ∧
         NoDup ids ∧
         (∀ id, id ∈ ids ↔ is_Some (blockMap s !! id)) ∧
         eval getBlockCount s = Ok (length ids).
Proof.
  intros [ls Hl]. exists (ids_of (objs s) ls). split; [|split; [|split]].
  - unfold eval. by rewrite (getAllBlocks_linked _ _ Hl).
  - by apply linked_ids_NoDup.
  - intros id. by apply linked_ids_tracked.
  - unfold eval, getBlockCount, blockMap_size. cbn [snd].
    rewrite (linked_size _ _ Hl). unfold ids_of. by rewrite length_fmap.
Qed.

Lemma getAllBlocks_matches_blockMap_witness :
  ∃ ids, eval getAllBlocks sample_CBA = Ok ids ∧
         NoDup ids ∧
         (∀ id, id ∈ ids ↔ is_Some (blockMap sample_CBA !! id)) ∧
         eval getBlockCount sample_CBA = Ok (length ids).
Proof. exact (getAllBlocks_matches_blockMap sample_CBA sample_CBA_wf). Defined.

(** X7: From the fresh manager no call ever changes the state or ends in an
    error: [moveToFront] tracks nothing, so every [removeBlock] finds its
    id untracked, every id reads 9000 and its hash, and the list is
    empty. *)
Theorem fresh_manager_never_changes (s : ZIndexManager) (id : string) :
  reachable s →
  moveToFront id s = (newManager, Ok 0) ∧
  removeBlock id s = (newManager, Ok tt) ∧
  getRenderOrder id s = (newManager, Ok 9000) ∧
  getZIndex id s = (newManager, Ok (generateFixedZIndex id)) ∧
  getAllBlocks s = (newManager, Ok []) ∧
  getBlocksNeedingUpdate s = (newManager, Ok []) ∧
  getBlockCount s = (newManager, Ok 0%nat) ∧
  reset s = (newManager, Ok tt).
Proof. intros ->%reachable_newManager. repeat split. Qed.

Lemma fresh_manager_never_changes_witness :
  moveToFront "a" (exec (removeBlock "a") (exec (moveToFront "a") newManager))
    = (newManager, Ok 0) ∧
  removeBlock "a" (exec (removeBlock "a") (exec (moveToFront "a") newManager))
    = (newManager, Ok tt).
Proof.
  assert (reachable (exec (removeBlock "a") (exec (moveToFront "a") newManager)))
    as H.
  { eapply rtc_r; [eapply rtc_once|].
    - exact (step_moveToFront "a" newManager).
    - exact (step_removeBlock "a" _). }
  pose proof (fresh_manager_never_changes _ "a" H) as (H1 & H2 & _).
  exact (conj H1 H2).
Defined.

(** ** The hash is the 31-polynomial of the char codes *)

Lemma to_int32_add_mul z k : to_int32 (z + k * 2 ^ 32) = to_int32 z.
Proof.
  unfold to_int32. replace (z + k * 2 ^ 32 + 2 ^ 31) with (z + 2 ^ 31 + k * 2 ^ 32)
    by ring. by rewrite Z_mod_plus_full.
Qed.

Lemma to_int32_wraps z : ∃ k, to_int32 z = z + k * 2 ^ 32.
Proof.
  exists (- ((z + 2 ^ 31) / 2 ^ 32)). unfold to_int32.
  rewrite Z.mod_eq by done. ring.
Qed.

Lemma to_int32_small z : - 2 ^ 31 ≤ z < 2 ^ 31 → to_int32 z = z.
Proof. intros H. unfold to_int32. rewrite Z.mod_small; lia. Qed.

Lemma hash_step a c :
  js_and (js_shl a 5 - a + c) 0xffffffff = to_int32 (31 * a + c).
Proof.
  rewrite js_and_mask. unfold js_shl. change (Z.land 5 31) with 5.
  rewrite Z.shiftl_mul_pow2 by done.
  destruct (to_int32_wraps a) as [k1 E1].
  destruct (to_int32_wraps (to_int32 a * 2 ^ 5)) as [k2 E2].
  rewrite E2, E1.
  replace ((a + k1 * 2 ^ 32) * 2 ^ 5 + k2 * 2 ^ 32 - a + c)
    with (31 * a + c + (32 * k1 + k2) * 2 ^ 32) by ring.
  apply to_int32_add_mul.
Qed.

Lemma hash_loop_poly31 id h : hash_loop id (to_int32 h) = to_int32 (poly31 id h).
Proof.
  revert h. induction id as [|c id IH]; intros h; simpl; [done|].
  rewrite hash_step, <-IH. f_equal.
  destruct (to_int32_wraps h) as [k E]. rewrite E.
  replace (31 * (h + k * 2 ^ 32) + charCode c)
    with (31 * h + charCode c + 31 * k * 2 ^ 32) by ring.
  apply to_int32_add_mul.
Qed.

Lemma charCode_nonneg c : 0 ≤ charCode c.
Proof. unfold charCode. lia. Qed.

Lemma poly31_nonneg id h : 0 ≤ h → 0 ≤ poly31 id h.
Proof.
  revert h. induction id as [|c id IH]; intros h Hh; simpl; [done|].
  apply IH. pose proof (charCode_nonneg c). lia.
Qed.

(** X8: The shifts and masks of generateFixedZIndex compute
    [hash * 31 + charCode] wrapped to 32 signed bits: the result is the
    polynomial of the char codes in 31, wrapped once.  For an id whose
    polynomial stays below 2^31 nothing wraps, and the key is the
    polynomial modulo 8000, plus 1000. *)
Theorem generateFixedZIndex_poly31 (id : string) :
  hash_loop id 0 = to_int32 (poly31 id 0) ∧
  generateFixedZIndex id = Z.rem (Z.abs (to_int32 (poly31 id 0))) 8000 + 1000 ∧
  (poly31 id 0 < 2 ^ 31 → generateFixedZIndex id = poly31 id 0 mod 8000 + 1000).
Proof.
  assert (hash_loop id 0 = to_int32 (poly31 id 0)) as E
    by apply (hash_loop_poly31 id 0).
  split; [done|]. unfold generateFixedZIndex. cbv zeta. rewrite E.
  split; [done|]. intros Hlt.
  pose proof (poly31_nonneg id 0 ltac:(done)) as Hge.
  rewrite to_int32_small by lia. rewrite Z.abs_eq by done.
  by rewrite Z.rem_mod_nonneg by lia.
Qed.

Lemma generateFixedZIndex_poly31_witness :
  poly31 "ab" 0 < 2 ^ 31 ∧ generateFixedZIndex "ab" = poly31 "ab" 0 mod 8000 + 1000.
Proof.
  assert (poly31 "ab" 0 < 2 ^ 31) as H by (vm_compute; reflexivity).
  split; [exact H|].
  exact (proj2 (proj2 (generateFixedZIndex_poly31 "ab")) H).
Defined.

(** ** Removing two blocks in either order *)

Lemma filter_all_true {A} (P : A → Prop) `{!∀ x, Decision (P x)} (l : list A) :
  (∀ x, x ∈ l → P x) → filter P l = l.
Proof.
  induction l as [|a l IH]; intros Hall; [done|].
  rewrite filter_cons_True by (apply Hall; left). f_equal.
  apply IH. intros x Hx. apply Hall. by right.
Qed.

(** The list of a state after [removeBlock(x)]: the former list without
    the node of [x]. *)
Lemma linked_exec_removeBlock s ls x :
  linked s ls →
  linked (exec (removeBlock x) s) (filter (λ l, blockMap s !! x ≠ Some l) ls).
Proof.
  intros Hl. rewrite exec_removeBlock.
  destruct (blockMap s !! x) as [l0|] eqn:E.
  - pose proof E as [Hin _]%(linked_index _ _ Hl).
    apply list_elem_of_split in Hin as (ls1 & ls2 & ->).
    pose proof (linked_nodup _ _ Hl) as Hnd.
    apply NoDup_app in Hnd as (_ & Hdisj & [Hl2 _]%NoDup_cons).
    rewrite filter_app, filter_cons_False by (intros H; by apply H).
    rewrite !filter_all_true; [by apply unlinked_linked | |].
    + intros l Hl' [= <-]. done.
    + intros l Hl' [= <-]. apply (Hdisj l0); [done | left].
  - by rewrite filter_all_true.
Qed.

(** X9: Removing [x] and then [y] leaves what removing [y] and then [x]
    leaves: the same [blockMap], the same list and the same render
    orders, in a state that satisfies the invariants. *)
Theorem removeBlock_commutes (s : ZIndexManager) (x y : string) :
  wf s →
  blockMap (exec (removeBlock y) (exec (removeBlock x) s))
    = blockMap (exec (removeBlock x) (exec (removeBlock y) s)) ∧
  eval getAllBlocks (exec (removeBlock y) (exec (removeBlock x) s))
    = eval getAllBlocks (exec (removeBlock x) (exec (removeBlock y) s)) ∧
  eval getBlocksNeedingUpdate (exec (removeBlock y) (exec (removeBlock x) s))
    = eval getBlocksNeedingUpdate (exec (removeBlock x) (exec (removeBlock y) s)).
Proof.
  intros [ls Hl].
  assert (∀ a b, a ≠ b →
    filter (λ l, blockMap (exec (removeBlock a) s) !! b ≠ Some l)
      (filter (λ l, blockMap s !! a ≠ Some l) ls)
    = filter (λ l, blockMap s !! a ≠ Some l ∧ blockMap s !! b ≠ Some l) ls) as Hf.
  { intros a b Hab. rewrite list_filter_filter. apply list_filter_iff. intros l.
    rewrite exec_removeBlock_blockMap, lookup_delete_ne by done. tauto. }
  destruct (decide (x = y)) as [->|Hxy]; [done|].
  pose proof (linked_exec_removeBlock _ _ y (linked_exec_removeBlock _ _ x Hl)) as H1.
  pose proof (linked_exec_removeBlock _ _ x (linked_exec_removeBlock _ _ y Hl)) as H2.
  rewrite Hf in H1 by done. rewrite Hf in H2 by done.
  rewrite (list_filter_iff _
    (λ l, blockMap s !! x ≠ Some l ∧ blockMap s !! y ≠ Some l)) in H2
    by (intros l; tauto).
  split; [|split].
  - rewrite !exec_removeBlock_blockMap. apply delete_delete.
  - unfold eval. rewrite (getAllBlocks_linked _ _ H1), (getAllBlocks_linked _ _ H2).
    cbn [snd]. f_equal. unfold ids_of. apply list_fmap_ext. intros _ l _.
    by rewrite !exec_removeBlock_field.
  - unfold eval.
    rewrite (getBlocksNeedingUpdate_linked _ _ H1),
      (getBlocksNeedingUpdate_linked _ _ H2).
    cbn [snd]. f_equal. unfold entries_of. apply list_fmap_ext. intros _ l _.
    by rewrite !(exec_removeBlock_field blockId),
      !(exec_removeBlock_field renderOrder).
Qed.

Lemma removeBlock_commutes_witness :
  blockMap (exec (removeBlock "A") (exec (removeBlock "B") sample_CBA))
    = blockMap (exec (removeBlock "B") (exec (removeBlock "A") sample_CBA)) ∧
  eval getAllBlocks (exec (removeBlock "A") (exec (removeBlock "B") sample_CBA))
    = eval getAllBlocks (exec (removeBlock "B") (exec (removeBlock "A") sample_CBA)) ∧
  eval getBlocksNeedingUpdate
      (exec (removeBlock "A") (exec (removeBlock "B") sample_CBA))
    = eval getBlocksNeedingUpdate
      (exec (removeBlock "B") (exec (removeBlock "A") sample_CBA)).
Proof. exact (removeBlock_commutes sample_CBA "B" "A" sample_CBA_wf). Defined.

Example removeBlock_two_orders :
  exec (removeBlock "A") (exec (removeBlock "B") sample_CBA)
    ≠ exec (removeBlock "B") (exec (removeBlock "A") sample_CBA) ∧
  eval getAllBlocks (exec (removeBlock "A") (exec (removeBlock "B") sample_CBA))
    = Ok ["C"].
Proof. split; [|vm_compute; reflexivity]. intros E. by vm_compute in E. Qed.

(** * Blocks *)

Lemma reported_run s i :
  Block.reported s i =
  match blockMap s !! i with
  | Some node => renderOrder (objs s !!! node)
  | None => 9000
  end.
Proof. unfold Block.reported, eval. by rewrite getRenderOrder_run. Qed.

Lemma reported_eval s i : eval (getRenderOrder i) s = Ok (Block.reported s i).
Proof. unfold Block.reported, eval. by rewrite getRenderOrder_run. Qed.

Lemma Block_updateRenderOrder_run s b :
  Block.updateRenderOrder (s, b) = ((s, Block.synced s b), Ok tt).
Proof.
  unfold Block.updateRenderOrder, st_bind, Block.this_id, Block.zIndexManager.
  cbn [fst snd]. rewrite getRenderOrder_run.
  unfold Block.synced. by rewrite reported_run.
Qed.

Lemma Block_bringToFront_run s b :
  Block.bringToFront (s, b) = ((s, Block.synced s b), Ok tt).
Proof.
  unfold Block.bringToFront, st_bind, Block.this_id, Block.zIndexManager.
  cbn [fst snd]. unfold moveToFront, ret. apply Block_updateRenderOrder_run.
Qed.

Lemma Block_assignZIndex_run s b :
  Block.assignZIndex (s, b) = ((s, Block.synced s b), Ok tt).
Proof. apply Block_bringToFront_run. Qed.

Lemma Block_dispose_untracked s b :
  blockMap s !! Block.id b = None →
  Block.dispose (s, b) = ((s, Block.disposed b), Ok tt).
Proof.
  intros H. unfold Block.dispose, st_bind, Block.this_id, Block.zIndexManager.
  cbn [fst snd]. by rewrite (removeBlock_untracked _ _ H).
Qed.

Lemma Block_dispose_tracked s b node :
  blockMap s !! Block.id b = Some node →
  Block.dispose (s, b)
    = ((unlinked (Block.id b) node s, b), Throw "Not implemented").
Proof.
  intros H. unfold Block.dispose, st_bind, Block.this_id, Block.zIndexManager.
  cbn [fst snd]. by rewrite (removeBlock_tracked _ _ _ H).
Qed.

(** X10: [bringToFront()] (and [assignZIndex()], which has the same body)
    returns and leaves the manager as it is: the block is not registered
    and no order changes.  The mesh gets the render order
    [getRenderOrder] reports for the id of the block, that is 9000 for an
    id the manager does not track; its other fields stay, and a second
    call changes nothing more. *)
Theorem Block_bringToFront_correct (s : ZIndexManager) (b : Block.t) :
  ∃ order b',
    eval (getRenderOrder (Block.id b)) s = Ok order ∧
    b' = Block.with_renderOrder order b ∧
    Block.bringToFront (s, b) = ((s, b'), Ok tt) ∧
    Block.assignZIndex (s, b) = ((s, b'), Ok tt) ∧
    Block.bringToFront (s, b') = ((s, b'), Ok tt) ∧
    (blockMap s !! Block.id b = None → order = 9000).
Proof.
  exists (Block.reported s (Block.id b)), (Block.synced s b).
  split; [apply reported_eval|]. split; [done|].
  split; [apply Block_bringToFront_run|].
  split; [apply Block_assignZIndex_run|].
  split; [by rewrite Block_bringToFront_run|].
  intros H. by rewrite reported_run, H.
Qed.

Lemma Block_bringToFront_correct_witness :
  ∃ b', Block.bringToFront (newManager, Block.mk "a" Mesh.new)
          = ((newManager, b'), Ok tt) ∧
        Mesh.renderOrder (Block.mesh b') = 9000.
Proof.
  destruct (Block_bringToFront_correct newManager (Block.mk "a" Mesh.new))
    as (order & b' & _ & Eb & Hrun & _ & _ & H9000).
  exists b'. split; [exact Hrun|].
  rewrite Eb, (H9000 eq_refl). reflexivity.
Defined.

(** X11: The constructor registers nothing: it returns a block with the given
    id, leaves the manager as it is, and the mesh of the block has the
    render order the manager reports for the id (9000 when untracked)
    and is not disposed. *)
Theorem Block_new_correct (s : ZIndexManager) (i : string) :
  ∃ order,
    eval (getRenderOrder i) s = Ok order ∧
    Block.new i s = (s, Ok (Block.mk i (Mesh.mk order false false))) ∧
    (blockMap s !! i = None → order = 9000).
Proof.
  exists (Block.reported s i). split; [apply reported_eval|]. split.
  - unfold Block.new. by rewrite Block_assignZIndex_run.
  - intros H. by rewrite reported_run, H.
Qed.

Lemma Block_new_correct_witness :
  Block.new "a" newManager
    = (newManager, Ok (Block.mk "a" (Mesh.mk 9000 false false))).
Proof.
  destruct (Block_new_correct newManager "a") as (order & _ & Hrun & H9000).
  rewrite <-(H9000 eq_refl). exact Hrun.
Defined.

(** X12: [dispose()] of a block whose id the manager does not track returns,
    leaves the manager as it is and disposes geometry and material.  For
    a tracked id it ends in the error of updateRenderOrders before
    anything of the mesh is disposed; the id is untracked afterwards, and
    a second [dispose()] returns and disposes the mesh. *)
Theorem Block_dispose_correct (s : ZIndexManager) (b : Block.t) :
  (blockMap s !! Block.id b = None →
   Block.dispose (s, b) = ((s, Block.disposed b), Ok tt)) ∧
  (is_Some (blockMap s !! Block.id b) →
   ∃ s', Block.dispose (s, b) = ((s', b), Throw "Not implemented") ∧
         blockMap s' = delete (Block.id b) (blockMap s) ∧
         Block.dispose (s', b) = ((s', Block.disposed b), Ok tt)).
Proof.
  split; [apply Block_dispose_untracked|]. intros [node H].
  exists (unlinked (Block.id b) node s).
  split; [by apply Block_dispose_tracked|]. split; [done|].
  apply Block_dispose_untracked. by rewrite unlinked_blockMap, lookup_delete_eq.
Qed.

Lemma Block_dispose_correct_witness :
  Block.dispose (sample_CBA, Block.mk "Z" (Mesh.mk 9000 false false))
    = ((sample_CBA, Block.mk "Z" (Mesh.mk 9000 true true)), Ok tt) ∧
  ∃ s', Block.dispose (sample_CBA, Block.mk "B" (Mesh.mk 8999 false false))
          = ((s', Block.mk "B" (Mesh.mk 8999 false false)),
             Throw "Not implemented") ∧
        blockMap s' = delete "B" (blockMap sample_CBA) ∧
        Block.dispose (s', Block.mk "B" (Mesh.mk 8999 false false))
          = ((s', Block.mk "B" (Mesh.mk 8999 true true)), Ok tt).
Proof.
  split.
  - apply (proj1 (Block_dispose_correct sample_CBA
                    (Block.mk "Z" (Mesh.mk 9000 false false)))).
    reflexivity.
  - apply (proj2 (Block_dispose_correct sample_CBA
                    (Block.mk "B" (Mesh.mk 8999 false false)))).
    exists 2%positive. reflexivity.
Defined.

(** * The canvas *)

Lemma forEach_ok (f : ST Block.state unit) (g : Block.t → Block.t) bs s :
  (∀ b, b ∈ bs → f (s, b) = ((s, g b), Ok tt)) →
  Canvas.forEach f bs s = (s, g <$> bs, Ok tt).
Proof.
  induction bs as [|b bs IH]; intros H; simpl; [done|].
  rewrite (H b) by left. rewrite IH; [done|].
  intros b' Hb'. apply H. by right.
Qed.

Lemma forEach_throw (f : ST Block.state unit) (g : Block.t → Block.t)
    pre b post s s' b' msg :
  (∀ x, x ∈ pre → f (s, x) = ((s, g x), Ok tt)) →
  f (s, b) = ((s', b'), Throw msg) →
  Canvas.forEach f (pre ++ b :: post) s
    = (s', (g <$> pre) ++ b' :: post, Throw msg).
Proof.
  intros Hpre Hb. induction pre as [|x pre IH]; simpl.
  - by rewrite Hb.
  - rewrite (Hpre x) by left. rewrite IH; [done|].
    intros y Hy. apply Hpre. by right.
Qed.

Lemma synced_synced s b : Block.synced s (Block.synced s b) = Block.synced s b.
Proof. reflexivity. Qed.

Lemma handleUpdate_run w :
  Canvas.handleUpdate w
    = (Canvas.mk (Canvas.manager w)
         (Block.synced (Canvas.manager w) <$> Canvas.blocks w), Ok tt).
Proof.
  unfold Canvas.handleUpdate, st_bind, Canvas.blocks_forEach.
  rewrite (forEach_ok _ (Block.synced (Canvas.manager w))); [done|].
  intros b _. apply Block_updateRenderOrder_run.
Qed.

Lemma handlePointerDown_run k w :
  Canvas.handlePointerDown k w = Canvas.handleUpdate w.
Proof.
  unfold Canvas.handlePointerDown, st_bind, Canvas.on_block.
  destruct (Canvas.blocks w !! k) as [b|] eqn:E; [|done].
  rewrite Block_bringToFront_run, !handleUpdate_run. cbn [Canvas.manager Canvas.blocks].
  do 2 f_equal. rewrite list_fmap_insert, synced_synced.
  apply list_insert_id. by rewrite list_lookup_fmap, E.
Qed.

Lemma addBlock_run i w :
  Canvas.addBlock i w
    = (Canvas.mk (Canvas.manager w)
         (Canvas.blocks w
          ++ [Block.mk i (Mesh.mk (Block.reported (Canvas.manager w) i) false false)]),
       Ok tt).
Proof.
  unfold Canvas.addBlock, st_bind, Canvas.getInstance, Block.new.
  by rewrite Block_assignZIndex_run.
Qed.

Lemma StronglySorted_lookup {A} (R : relation A) (l : list A) i j a b :
  StronglySorted R l → (i < j)%nat → l !! i = Some a → l !! j = Some b → R a b.
Proof.
  intros Hs. revert i j. induction Hs as [|x l Hs IH Hall]; intros i j Hij Hi Hj;
    [done|].
  destruct j as [|j]; [lia|]. destruct i as [|i]; simpl in *.
  - injection Hi as ->. rewrite Forall_forall in Hall. apply Hall.
    by eapply list_elem_of_lookup_2.
  - apply (IH i j); [lia | done..].
Qed.

(** X13: handleUpdate returns in every state and leaves the manager as it is;
    it keeps the array, every block in its place, and gives the mesh of
    every block the render order [getRenderOrder] reports for its id. *)
Theorem handleUpdate_correct (w : Canvas.state) :
  ∃ bs',
    Canvas.handleUpdate w = (Canvas.mk (Canvas.manager w) bs', Ok tt) ∧
    length bs' = length (Canvas.blocks w) ∧
    ∀ k b, Canvas.blocks w !! k = Some b →
      ∃ order,
        eval (getRenderOrder (Block.id b)) (Canvas.manager w) = Ok order ∧
        bs' !! k = Some (Block.with_renderOrder order b).
Proof.
  exists (Block.synced (Canvas.manager w) <$> Canvas.blocks w).
  split; [apply handleUpdate_run|]. split; [apply length_fmap|].
  intros k b Hk. exists (Block.reported (Canvas.manager w) (Block.id b)).
  split; [apply reported_eval|]. by rewrite list_lookup_fmap, Hk.
Qed.

Lemma handleUpdate_correct_witness :
  ∃ bs',
    Canvas.handleUpdate
      (Canvas.mk sample_CBA [Block.mk "A" Mesh.new; Block.mk "Z" Mesh.new])
      = (Canvas.mk sample_CBA bs', Ok tt) ∧
    bs' !! 0%nat = Some (Block.mk "A" (Mesh.mk 8998 false false)).
Proof.
  destruct (handleUpdate_correct
              (Canvas.mk sample_CBA [Block.mk "A" Mesh.new; Block.mk "Z" Mesh.new]))
    as (bs' & Hrun & _ & Hk).
  exists bs'. split; [exact Hrun|].
  destruct (Hk 0%nat (Block.mk "A" Mesh.new) eq_refl) as (order & Ho & ->).
  cbv in Ho. injection Ho as <-. reflexivity.
Defined.

(** X14: Where render orders fall strictly along the list of the manager,
    handleUpdate makes the meshes follow the list: of two blocks whose
    ids are in the list, the one nearer the front has the larger
    render order. *)
Theorem handleUpdate_draw_order (w : Canvas.state) (ids : list string)
    (i j : nat) (b1 b2 : Block.t) :
  ordered (Canvas.manager w) →
  eval getAllBlocks (Canvas.manager w) = Ok ids →
  (i < j)%nat →
  ids !! i = Some (Block.id b1) → ids !! j = Some (Block.id b2) →
  b1 ∈ Canvas.blocks (Canvas.handleUpdate w).1 →
  b2 ∈ Canvas.blocks (Canvas.handleUpdate w).1 →
  Mesh.renderOrder (Block.mesh b2) < Mesh.renderOrder (Block.mesh b1).
Proof.
  intros (ls & Hl & Hsd) Hids Hij Hi Hj. rewrite handleUpdate_run.
  cbn [fst Canvas.blocks].
  intros (c1 & -> & _)%list_elem_of_fmap (c2 & -> & _)%list_elem_of_fmap.
  cbn in Hi, Hj |- *.
  unfold eval in Hids. rewrite (getAllBlocks_linked _ _ Hl) in Hids.
  injection Hids as <-. unfold ids_of in Hi, Hj.
  apply list_lookup_fmap_Some in Hi as (l1 & E1 & Hl1).
  apply list_lookup_fmap_Some in Hj as (l2 & E2 & Hl2).
  assert (∀ k l c, ls !! k = Some l →
            Block.id c = blockId (objs (Canvas.manager w) !!! l) →
            Block.reported (Canvas.manager w) (Block.id c)
              = renderOrder (objs (Canvas.manager w) !!! l)) as Hrep.
  { intros k l c Hk Ec. pose proof (reported_eval (Canvas.manager w) (Block.id c)) as Hr.
    rewrite Ec, (linked_getRenderOrder _ _ _ Hl) in Hr
      by by eapply list_elem_of_lookup_2.
    injection Hr as Hr. by rewrite Ec. }
  rewrite (Hrep _ _ _ Hl1 E1), (Hrep _ _ _ Hl2 E2).
  apply (StronglySorted_lookup _ _ i j _ _ Hsd Hij); unfold ranks;
    rewrite list_lookup_fmap; [by rewrite Hl1 | by rewrite Hl2].
Qed.

Lemma handleUpdate_draw_order_witness :
  Mesh.renderOrder (Block.mesh (Block.mk "A" (Mesh.mk 8998 false false)))
  < Mesh.renderOrder (Block.mesh (Block.mk "C" (Mesh.mk 9000 false false))).
Proof.
  apply (handleUpdate_draw_order
           (Canvas.mk sample_CBA [Block.mk "A" Mesh.new; Block.mk "C" Mesh.new])
           ["C"; "B"; "A"] 0 2).
  - exact sample_CBA_ordered.
  - reflexivity.
  - lia.
  - reflexivity.
  - reflexivity.
  - apply list_elem_of_In. vm_compute. auto.
  - apply list_elem_of_In. vm_compute. auto.
Defined.

(** X15: A press on a block does what handleUpdate alone does, in every
    state: [bringToFront()] reorders nothing, so the press only refreshes
    the render orders of the meshes. *)
Theorem handlePointerDown_only_refreshes (k : nat) (w : Canvas.state) :
  Canvas.handlePointerDown k w = Canvas.handleUpdate w ∧
  Canvas.manager (Canvas.handlePointerDown k w).1 = Canvas.manager w.
Proof.
  rewrite handlePointerDown_run. split; [done|]. by rewrite handleUpdate_run.
Qed.

Lemma removeAllBlocks_run_untracked (w : Canvas.state) :
  (∀ b, b ∈ Canvas.blocks w → blockMap (Canvas.manager w) !! Block.id b = None) →
  Canvas.blocks_forEach Block.dispose w
    = (Canvas.mk (Canvas.manager w) (Block.disposed <$> Canvas.blocks w), Ok tt) ∧
  Canvas.removeAllBlocks w
    = (Canvas.mk (exec reset (Canvas.manager w)) [], Ok tt).
Proof.
  intros H.
  assert (Canvas.blocks_forEach Block.dispose w
    = (Canvas.mk (Canvas.manager w) (Block.disposed <$> Canvas.blocks w), Ok tt))
    as E.
  { unfold Canvas.blocks_forEach. rewrite (forEach_ok _ Block.disposed); [done|].
    intros b Hb. apply Block_dispose_untracked. by apply H. }
  split; [done|]. unfold Canvas.removeAllBlocks, st_bind. by rewrite E.
Qed.

(** X16: Where the manager tracks the id of no block of the array,
    removeAllBlocks returns: the loop disposes geometry and material of
    every block and leaves the manager as it is, then the array is
    emptied and the manager reset. *)
Theorem removeAllBlocks_untracked (w : Canvas.state) :
  (∀ b, b ∈ Canvas.blocks w → blockMap (Canvas.manager w) !! Block.id b = None) →
  Canvas.blocks_forEach Block.dispose w
    = (Canvas.mk (Canvas.manager w) (Block.disposed <$> Canvas.blocks w), Ok tt) ∧
  Canvas.removeAllBlocks w
    = (Canvas.mk (exec reset (Canvas.manager w)) [], Ok tt).
Proof. apply removeAllBlocks_run_untracked. Qed.

Lemma removeAllBlocks_untracked_witness :
  Canvas.removeAllBlocks
    (Canvas.mk sample_CBA [Block.mk "Y" Mesh.new; Block.mk "Z" Mesh.new])
  = (Canvas.mk (exec reset sample_CBA) [], Ok tt).
Proof.
  assert (∀ b, b ∈ [Block.mk "Y" Mesh.new; Block.mk "Z" Mesh.new] →
               blockMap sample_CBA !! Block.id b = None) as H.
  { intros b Hb.
    apply elem_of_cons in Hb as [->|Hb]; [reflexivity|].
    apply elem_of_cons in Hb as [->|Hb]; [reflexivity|].
    by apply elem_of_nil in Hb. }
  exact (proj2 (removeAllBlocks_untracked
           (Canvas.mk sample_CBA [Block.mk "Y" Mesh.new; Block.mk "Z" Mesh.new]) H)).
Defined.

(** X17: Where the manager tracks the id of a block of the array,
    removeAllBlocks ends in the error of updateRenderOrders at the first
    such block: the blocks before it are disposed, this block and the
    ones after it are not, the array is not emptied and the manager is
    not reset; it only has lost the id of this block. *)
Theorem removeAllBlocks_tracked (w : Canvas.state) (pre post : list Block.t)
    (b : Block.t) :
  Canvas.blocks w = pre ++ b :: post →
  (∀ x, x ∈ pre → blockMap (Canvas.manager w) !! Block.id x = None) →
  is_Some (blockMap (Canvas.manager w) !! Block.id b) →
  ∃ s',
    Canvas.removeAllBlocks w
      = (Canvas.mk s' ((Block.disposed <$> pre) ++ b :: post),
         Throw "Not implemented") ∧
    blockMap s' = delete (Block.id b) (blockMap (Canvas.manager w)).
Proof.
  intros Hbs Hpre [node Hb]. exists (unlinked (Block.id b) node (Canvas.manager w)).
  split; [|done].
  unfold Canvas.removeAllBlocks, st_bind, Canvas.blocks_forEach. rewrite Hbs.
  rewrite (forEach_throw _ Block.disposed _ _ _ _
             (unlinked (Block.id b) node (Canvas.manager w)) b "Not implemented");
    [done | |].
  - intros x Hx. apply Block_dispose_untracked. by apply Hpre.
  - by apply Block_dispose_tracked.
Qed.

Lemma removeAllBlocks_tracked_witness :
  ∃ s',
    Canvas.removeAllBlocks
      (Canvas.mk sample_CBA
         [Block.mk "Z" Mesh.new; Block.mk "B" Mesh.new; Block.mk "A" Mesh.new])
    = (Canvas.mk s'
         ((Block.disposed <$> [Block.mk "Z" Mesh.new])
          ++ Block.mk "B" Mesh.new :: [Block.mk "A" Mesh.new]),
       Throw "Not implemented") ∧
    blockMap s' = delete "B" (blockMap sample_CBA).
Proof.
  apply (removeAllBlocks_tracked
           (Canvas.mk sample_CBA
              [Block.mk "Z" Mesh.new; Block.mk "B" Mesh.new; Block.mk "A" Mesh.new])
           [Block.mk "Z" Mesh.new] [Block.mk "A" Mesh.new] (Block.mk "B" Mesh.new)).
  - reflexivity.
  - intros x Hx. apply elem_of_cons in Hx as [->|Hx]; [reflexivity|].
    by apply elem_of_nil in Hx.
  - exists 2%positive. reflexivity.
Defined.

(** ** What a user can reach *)

Lemma canvas_step_invariant w w' :
  Canvas.step w w' →
  Canvas.manager w = newManager →
  Forall (λ b, Block.mesh b = Mesh.mk 9000 false false) (Canvas.blocks w) →
  Canvas.manager w' = newManager ∧
  Forall (λ b, Block.mesh b = Mesh.mk 9000 false false) (Canvas.blocks w').
Proof.
  intros Hstep Hm Hall. destruct Hstep as [i w|k w _|w].
  - rewrite addBlock_run, Hm. cbn. split; [done|].
    apply Forall_app. split; [done|]. by constructor.
  - rewrite handlePointerDown_run, handleUpdate_run, Hm. cbn. split; [done|].
    apply Forall_fmap. eapply Forall_impl; [exact Hall|].
    intros b Hb. cbn. by rewrite Hb.
  - rewrite (proj2 (removeAllBlocks_run_untracked w ltac:(by rewrite Hm))), Hm.
    cbn. split; [done | constructor].
Qed.

(** X18: Whatever blocks a user adds, presses and clears, starting from the
    empty canvas: the manager stays the fresh manager, the mesh of every
    block of the array has render order 9000 and is not disposed, and
    every handler returns without an error.  So a press never brings a
    block in front of another. *)
Theorem canvas_never_reorders (w : Canvas.state) :
  Canvas.reachable w →
  Canvas.manager w = newManager ∧
  Forall (λ b, Block.mesh b = Mesh.mk 9000 false false) (Canvas.blocks w) ∧
  (∀ i, (Canvas.addBlock i w).2 = Ok tt) ∧
  (∀ k, (Canvas.handlePointerDown k w).2 = Ok tt) ∧
  (Canvas.removeAllBlocks w).2 = Ok tt.
Proof.
  intros Hr.
  assert (Canvas.manager w = newManager ∧
          Forall (λ b, Block.mesh b = Mesh.mk 9000 false false) (Canvas.blocks w))
    as [Hm Hall].
  { revert w Hr. apply rtc_ind_r; [by split|].
    intros w w' _ Hstep [Hm Hall]. by eapply canvas_step_invariant. }
  repeat split; try done.
  - intros i. by rewrite addBlock_run.
  - intros k. by rewrite handlePointerDown_run, handleUpdate_run.
  - by rewrite (proj2 (removeAllBlocks_run_untracked w ltac:(by rewrite Hm))).
Qed.

Lemma canvas_never_reorders_witness :
  Canvas.manager
    (Canvas.handlePointerDown 0 (Canvas.addBlock "b" (Canvas.addBlock "a" Canvas.initial).1).1).1
    = newManager ∧
  Forall (λ b, Block.mesh b = Mesh.mk 9000 false false)
    (Canvas.blocks
       (Canvas.handlePointerDown 0
          (Canvas.addBlock "b" (Canvas.addBlock "a" Canvas.initial).1).1).1).
Proof.
  assert (Canvas.reachable
    (Canvas.handlePointerDown 0
       (Canvas.addBlock "b" (Canvas.addBlock "a" Canvas.initial).1).1).1) as H.
  { eapply rtc_r; [eapply rtc_r; [eapply rtc_once|]|].
    - exact (Canvas.step_addBlock "a" Canvas.initial).
    - exact (Canvas.step_addBlock "b" _).
    - apply (Canvas.step_handlePointerDown 0). eexists. reflexivity. }
  pose proof (canvas_never_reorders _ H) as (H1 & H2 & _).
  exact (conj H1 H2).
Defined.

(** * Render orders of the tracked blocks *)




Example ranks_fall_sample :
  eval getAllBlocks sample_CBA = Ok ["C"; "B"; "A"] ∧
  ranks_of sample_CBA ["C"; "B"; "A"] [9000; 8999; 8998] ∧
  eval getAllBlocks (exec (removeBlock "B") sample_CBA) = Ok ["C"; "A"] ∧
  ranks_of (exec (removeBlock "B") sample_CBA) ["C"; "A"] [9000; 8998].
Proof.
  split; [vm_compute; reflexivity|]. split; [repeat constructor|].
  split; [vm_compute; reflexivity|]. repeat constructor.
Qed.
